(** * Opteo/maps: static map URLs from OpenStreetMap outlines

    A shallow embedding of [src/maps.ts] and [src/types.ts].

    - A JavaScript [number] is an IEEE 754 binary64 value: it is modelled by
      Rocq's primitive [float], whose operations are the same correctly rounded
      binary64 operations ([Math.abs], [Math.sqrt], [+], [-], [/], [>]).
      [Math.pow(x, 2)] is modelled by the correctly rounded square [x * x].
    - A JavaScript string is a sequence of UTF-16 code units: [list N].
    - A thrown [Error] is the [Throw] branch of the [Result] monad.
    - The two things the module does not define itself, the HTTP client
      ([axios.get]) and the conversion of a number inside a template literal
      (Number::toString), are parameters of the section [Host].  What the
      awaited [axios.get] is, the array of candidates or a response object,
      is part of the model. *)

From Stdlib Require Import Ascii String.
From Stdlib Require Import List Bool Arith ZArith NArith Lia.
From Stdlib Require Import Sorted Permutation.
From Stdlib Require Import Floats.
Import ListNotations.

Set Implicit Arguments.

(** ** Numbers *)

Definition number := float.

(** ** Strings: sequences of UTF-16 code units *)

Definition char := N.
Definition jsstring := list char.

(** A string literal of the source, all of whose characters are ASCII. *)
Definition lit (s : string) : jsstring :=
  map N_of_ascii (list_ascii_of_string s).

Arguments lit s%_string.

Definition comma : char := 44%N.
Definition plus : char := 43%N.

(** The regular expression class [\s]: ECMAScript's WhiteSpace and
    LineTerminator code points. *)
Definition is_whitespace (c : char) : bool :=
  ((9 <=? c) && (c <=? 13) || (c =? 32) || (c =? 160) || (c =? 5760)
   || (8192 <=? c) && (c <=? 8202) || (c =? 8232) || (c =? 8233)
   || (c =? 8239) || (c =? 8287) || (c =? 12288) || (c =? 65279))%N.

Definition is_comma (c : char) : bool := (c =? comma)%N.

(** ** Errors *)

(** [types.ts], [enum ErrorMessage]. *)
Inductive ErrorMessage : Type :=
| NO_API_KEY
| NO_LOCATION
| FAILED_OPENSTREETMAP_REQUEST
| UNKNOWN_GEOJSON_TYPE
| NO_COORDINATES_FOUND.

(** What a call can throw: [new Error(ErrorMessage.X)], or the [TypeError] the
    engine raises when a property of [undefined] is read. *)
Inductive Exception : Type :=
| Error (message : ErrorMessage)
| TypeError.

Inductive Result (A : Type) : Type :=
| Return (value : A)
| Throw (exception : Exception).

Arguments Return {A} value.
Arguments Throw {A} exception.

Definition bind {A B : Type} (r : Result A) (k : A -> Result B) : Result B :=
  match r with
  | Return a => k a
  | Throw e => Throw e
  end.

Declare Scope result_scope.
Delimit Scope result_scope with result.
Notation "x <- r ;; k" := (bind r (fun x => k))
  (at level 61, r at next level, right associativity) : result_scope.
Open Scope result_scope.

(** [Array.prototype.map] with a callback that may throw: the callback runs on
    the elements in order, with their index, and the first exception ends the
    call. *)
Fixpoint mapi_from {A B : Type} (f : A -> nat -> Result B) (index : nat)
  (l : list A) : Result (list B) :=
  match l with
  | [] => Return []
  | a :: l' =>
      b <- f a index ;;
      bs <- mapi_from f (S index) l' ;;
      Return (b :: bs)
  end.

Definition mapi {A B : Type} (f : A -> nat -> Result B) (l : list A)
  : Result (list B) :=
  mapi_from f 0 l.

(** ** Data model ([types.ts]) *)

Inductive GoogleLocationTargetType : Type :=
| City | Municipality | Neighborhood | District | County | Region
| CityRegion | Borough | Province | University | Airport | State | Country
| Department | Territory | Canton | AutonomousCommunity | UnionTerritory
| Prefecture | Governorate | PostalCode | CongressionalDistrict | TVRegion
| Okrug | NationalPark.

Definition is_postal_code (t : GoogleLocationTargetType) : bool :=
  match t with
  | PostalCode => true
  | _ => false
  end.

Record Location : Type := mkLocation {
  canonical_name : jsstring;
  target_type : option GoogleLocationTargetType
}.

Record Coordinate : Type := mkCoordinate {
  longitude : number;
  latitude : number;
  distance : number
}.

(** A raw GeoJSON position [[longitude, latitude]]: a [number[]] of which the
    code reads components 0 and 1 only; both are taken to be present. *)
Definition Position : Type := (number * number)%type.

(** A ring is a [number[][]], a polygon a [number[][][]]. *)
Definition Ring : Type := list Position.
Definition RawPolygon : Type := list Ring.

(** [OpenStreetMapGeoJson].  [OtherType] is a value whose [type] tag is none of
    the four of [OpenStreetMapLocationType]: the last branch of
    [condenseCoordinates]. *)
Inductive OpenStreetMapGeoJson : Type :=
| POINT (coordinates : list number)
| POLYGON (coordinates : list Ring)
| LINESTRING (coordinates : list Ring)
| MULTIPOLYGON (coordinates : list RawPolygon)
| OtherType (type : jsstring).

Definition is_point (g : OpenStreetMapGeoJson) : bool :=
  match g with
  | POINT _ => true
  | _ => false
  end.

Definition is_multipolygon (g : OpenStreetMapGeoJson) : bool :=
  match g with
  | MULTIPOLYGON _ => true
  | _ => false
  end.

Record OpenStreetMapResponse : Type := mkResponse {
  geojson : option OpenStreetMapGeoJson
}.

(** ** Tunable constants: the exported, mutable [constants] object *)

(** The tests assign other values to both properties, so the functions below
    take the object as an argument.  [MAX_POLYGON_COUNT] is the end index of a
    [slice]: a natural number. *)

Record Constants : Type := mkConstants {
  DISTANCE_INTERVAL_FREQUENCY : number;
  MAX_POLYGON_COUNT : nat
}.

Definition constants : Constants :=
  {| DISTANCE_INTERVAL_FREQUENCY := 200%float; MAX_POLYGON_COUNT := 10 |}.

(** ** calculateCoordinateSeparation *)

Definition calculateCoordinateSeparation (coordinateA coordinateB : Position)
  : number :=
  let longitudinallDifference :=
    abs (fst coordinateA - fst coordinateB)%float in
  let latitudinalDifference :=
    abs (snd coordinateA - snd coordinateB)%float in
  sqrt (longitudinallDifference * longitudinallDifference
        + latitudinalDifference * latitudinalDifference)%float.

(** ** condenseCoordinates *)

(** The comparator [(a, b) => b[0].length - a[0].length] reads the first ring
    of both polygons; [firstRingLength] is [p[0].length]. *)
Definition firstRingLength (p : RawPolygon) : nat :=
  match p with
  | [] => 0
  | ring :: _ => length ring
  end.

Definition hasNoRing (p : RawPolygon) : bool :=
  match p with
  | [] => true
  | _ :: _ => false
  end.

(** [Array.prototype.sort] is stable: with this comparator it orders the
    polygons by decreasing [firstRingLength] and keeps the input order among
    polygons of equal length. *)
Fixpoint insertPolygon (p : RawPolygon) (sorted : list RawPolygon)
  : list RawPolygon :=
  match sorted with
  | [] => [p]
  | q :: rest =>
      if firstRingLength q <=? firstRingLength p
      then p :: sorted
      else q :: insertPolygon p rest
  end.

Definition sortPolygons (polygons : list RawPolygon) : list RawPolygon :=
  fold_right insertPolygon [] polygons.

(** The rings pushed on [rawCoordinates] (lines 116-135) for the kinds other
    than Point, on which [condenseCoordinates] returns before.  An entry is
    [None] when [geoJson.coordinates[0]] is [undefined].  A sort of two or
    more polygons calls the comparator on each of them, which throws on a
    polygon without a first ring; a sort of fewer does not call it. *)
Definition rawCoordinatesOf (c : Constants) (geoJson : OpenStreetMapGeoJson)
  : Result (list (option Ring)) :=
  match geoJson with
  | POINT _ => Return []
  | POLYGON coordinates => Return [nth_error coordinates 0]
  | LINESTRING coordinates => Return [nth_error coordinates 0]
  | MULTIPOLYGON coordinates =>
      if (2 <=? length coordinates) && existsb hasNoRing coordinates
      then Throw TypeError
      else Return (map Some
             (concat (firstn (MAX_POLYGON_COUNT c) (sortPolygons coordinates))))
  | OtherType _ => Throw (Error UNKNOWN_GEOJSON_TYPE)
  end.

(** The [for] loop of lines 147-157: [previous] is [polygon[i - 1]], [rest] is
    [polygon[i], polygon[i + 1], ...]; the state is [totalDistance] and the
    array [coordinatesWithDistances]. *)
Fixpoint distanceLoop (previous : Position) (rest : list Position)
  (totalDistance : number) (coordinatesWithDistances : list Coordinate)
  : number * list Coordinate :=
  match rest with
  | [] => (totalDistance, coordinatesWithDistances)
  | coordinateA :: rest' =>
      let distance := calculateCoordinateSeparation coordinateA previous in
      distanceLoop coordinateA rest' (totalDistance + distance)%float
        (coordinatesWithDistances
           ++ [{| longitude := fst coordinateA;
                  latitude := snd coordinateA;
                  distance := distance |}])
  end.

(** One call of the [forEach] callback of lines 180-189; the state is
    [distanceAccumulator] and the array [coordinates]. *)
Definition takeCoordinate (distanceInterval : number)
  (state : number * list Coordinate) (coordinate : Coordinate) (index : nat)
  : number * list Coordinate :=
  let distanceAccumulator := (fst state + distance coordinate)%float in
  if index =? 0 then (distanceAccumulator, snd state ++ [coordinate])
  else if (distanceInterval <? distanceAccumulator)%float
       then (0%float, snd state ++ [coordinate])
       else (distanceAccumulator, snd state).

Fixpoint takeLoop (distanceInterval : number) (index : nat)
  (coordinatesWithDistances : list Coordinate)
  (state : number * list Coordinate) : number * list Coordinate :=
  match coordinatesWithDistances with
  | [] => state
  | coordinate :: rest =>
      takeLoop distanceInterval (S index) rest
        (takeCoordinate distanceInterval state coordinate index)
  end.

(** The frequency of lines 159-171. *)
Definition frequencyOf (c : Constants) (multipolygon : bool) (index : nat)
  : number :=
  if multipolygon && (1 <? index) then 10%float
  else DISTANCE_INTERVAL_FREQUENCY c.

(** The callback of [rawCoordinates.map] (lines 138-192).  Reading
    [polygon[0][0]] throws when [polygon] is [undefined] or has no element. *)
Definition condensePolygon (c : Constants) (multipolygon : bool)
  (polygon : option Ring) (index : nat) : Result (list Coordinate) :=
  match polygon with
  | None => Throw TypeError
  | Some [] => Throw TypeError
  | Some (first :: rest) =>
      let start :=
        [{| longitude := fst first; latitude := snd first;
           distance := 0%float |}] in
      let (totalDistance, coordinatesWithDistances) :=
        distanceLoop first rest 0%float start in
      let distanceInterval :=
        (totalDistance / frequencyOf c multipolygon index)%float in
      Return (snd (takeLoop distanceInterval 0 coordinatesWithDistances
                     (0%float, [])))
  end.

Definition condenseCoordinates (c : Constants) (geoJson : OpenStreetMapGeoJson)
  : Result (list (list Coordinate)) :=
  if is_point geoJson then Return [[]]
  else
    rawCoordinates <- rawCoordinatesOf c geoJson ;;
    mapi (condensePolygon c (is_multipolygon geoJson)) rawCoordinates.

(** ** buildEncodedCanonicalName *)

(** The number of leading code units of [s] that satisfy [p]. *)
Fixpoint runLength (p : char -> bool) (s : jsstring) : nat :=
  match s with
  | [] => 0
  | c :: rest => if p c then S (runLength p rest) else 0
  end.

(** A pattern gives, for the text that starts at the current position, the
    length of its match there, if any. *)
Definition Pattern : Type := jsstring -> option nat.

(** [/,+\s/]: a greedy run of one or more commas, then one whitespace code
    unit.  Giving back commas cannot help: the code unit after a shorter run
    is a comma. *)
Definition commasThenSpace : Pattern := fun s =>
  let commas := runLength is_comma s in
  match commas, nth_error s commas with
  | S _, Some c => if is_whitespace c then Some (S commas) else None
  | _, _ => None
  end.

(** [/\s+/]: a greedy run of one or more whitespace code units. *)
Definition spaces : Pattern := fun s =>
  match runLength is_whitespace s with
  | 0 => None
  | S n => Some (S n)
  end.

(** [String.prototype.replace] with a global pattern and a constant
    replacement: the text is scanned from the left; where the pattern matches,
    the replacement is emitted and the scan resumes after the match ([inside]
    counts the matched code units still to skip); elsewhere the code unit is
    copied.  After an empty match the scan advances by one code unit. *)
Fixpoint replaceFrom (pattern : Pattern) (replacement : jsstring)
  (inside : nat) (s : jsstring) : jsstring :=
  match s with
  | [] =>
      match inside, pattern [] with
      | 0, Some _ => replacement
      | _, _ => []
      end
  | c :: rest =>
      match inside with
      | S k => replaceFrom pattern replacement k rest
      | 0 =>
          match pattern s with
          | Some (S k) => replacement ++ replaceFrom pattern replacement k rest
          | Some 0 => replacement ++ c :: replaceFrom pattern replacement 0 rest
          | None => c :: replaceFrom pattern replacement 0 rest
          end
      end
  end.

Definition replaceAll (pattern : Pattern) (replacement : jsstring)
  (s : jsstring) : jsstring :=
  replaceFrom pattern replacement 0 s.

Definition buildEncodedCanonicalName (canonicalName : jsstring) : jsstring :=
  replaceAll spaces (lit "+")
    (replaceAll commasThenSpace (lit ",") canonicalName).

(** ** The styling parameters *)

(** [Array.prototype.join]. *)
Fixpoint join (separator : jsstring) (parts : list jsstring) : jsstring :=
  match parts with
  | [] => []
  | [part] => part
  | part :: rest => part ++ separator ++ join separator rest
  end.

Definition style : jsstring :=
  join (lit "&")
    [ lit "&format=png";
      lit "maptype=roadmap";
      lit "style=feature:landscape.man_made|element:geometry|color:0xf7f1df";
      lit "style=feature:landscape.natural|element:geometry|color:0xd0e3b4";
      lit "style=feature:landscape.natural.terrain|element:geometry|visibility:off";
      lit "style=feature:poi|element:labels|visibility:off";
      lit "style=feature:poi.business|visibility:off";
      lit "style=feature:poi.medical|element:geometry|color:0xfbd3da";
      lit "style=feature:poi.park|element:geometry|color:0xbde6ab";
      lit "style=feature:road|element:geometry.stroke|visibility:off";
      lit "style=feature:road|element:labels|visibility:off";
      lit "style=feature:road.arterial|element:geometry.fill|color:0xffffff";
      lit "style=feature:road.highway|element:geometry.fill|color:0xffe15f";
      lit "style=feature:road.highway|element:geometry.stroke|color:0xefd151";
      lit "style=feature:road.local|element:geometry.fill|color:0xffffff";
      lit "style=feature:transit|element:labels.icon|visibility:off";
      lit "style=feature:transit|element:labels.text|visibility:off";
      lit "style=feature:transit.station.airport|element:geometry.fill|color:0xcfb2db";
      lit "style=feature:transit.station.bus|visibility:off";
      lit "style=feature:water|element:geometry|color:0xa2daf2" ].

(** ** The functions that depend on the host *)

(** What [generateMapUrl] receives for [location]: an object whose two
    properties may be [undefined]. *)
Record LocationArgument : Type := mkLocationArgument {
  argument_canonical_name : option jsstring;
  argument_target_type : option GoogleLocationTargetType
}.

(** What the awaited [axios.get(url, ...)] is.  The code gives it the type
    [OpenStreetMapResponse[]].  axios itself resolves to a response object
    that holds the parsed body under [data]; the awaited value is the array
    of candidates only when the host unwraps the body (a response interceptor
    on the shared axios instance, a test double). *)
Inductive AxiosValue : Type :=
| CandidateArray (candidates : list OpenStreetMapResponse)
| ResponseObject (data : list OpenStreetMapResponse).

Section Host.

(** Number::toString, applied by a template literal to a number. *)
Variable numberToString : number -> jsstring.

(** [axios.get(url, { headers: {} })]: it rejects, or resolves to a value. *)
Variable axios_get : jsstring -> Result AxiosValue.

(** *** buildLocationShape *)

Definition pathStyle : jsstring :=
  lit "&path=color:0x00000077|weight:1|fillcolor:0xAA000033".

(** The inner [reduce] callback of line 242. *)
Definition appendPoint (thisPath : jsstring) (coordinate : Coordinate)
  : jsstring :=
  thisPath ++ lit "|" ++ numberToString (latitude coordinate)
    ++ lit "," ++ numberToString (longitude coordinate).

(** The outer [reduce] callback of lines 239-251. *)
Definition appendShape (location : Location) (fullPath : jsstring)
  (polygon : list Coordinate) : jsstring :=
  if 2 <? length polygon then
    let path := fold_left appendPoint polygon pathStyle in
    match polygon with
    | first :: _ =>
        fullPath ++ path ++ lit "|" ++ numberToString (latitude first)
          ++ lit "," ++ numberToString (longitude first)
    | [] => fullPath ++ path (* not reached: the ring has 3 points or more *)
    end
  else
    let encodedCanonicalName :=
      buildEncodedCanonicalName (canonical_name location) in
    fullPath ++ lit "&center=" ++ encodedCanonicalName.

Definition buildLocationShape (location : Location)
  (coordinates : list (list Coordinate)) : Result jsstring :=
  if length coordinates =? 0 then Throw (Error NO_COORDINATES_FOUND)
  else Return (fold_left (appendShape location) coordinates style).

(** *** buildMapUrl *)

Definition buildMapUrl (location : Location)
  (coordinates : list (list Coordinate)) (apiKey : jsstring)
  : Result jsstring :=
  let proportions := lit "?size=600x400&scale=2" in
  proximities <- buildLocationShape location coordinates ;;
  let key := lit "&key=" ++ apiKey in
  Return (lit "https://maps.googleapis.com/maps/api/staticmap"
            ++ proportions ++ proximities ++ key).

(** *** doOpenStreetMapRequest *)

Definition hasPointGeojson (response : OpenStreetMapResponse) : bool :=
  match geojson response with
  | Some g => is_point g
  | None => false
  end.

Definition isPostalCode (location : Location) : bool :=
  match target_type location with
  | Some t => is_postal_code t
  | None => false
  end.

(** The [try] block of lines 81-94.  On an array the result is [None] for
    [undefined]: destructuring the first element of an empty array.  A
    response object has no [filter] method and is not iterable: line 86 and
    line 92 throw a TypeError on it. *)
Definition selectCandidate (location : Location)
  (openStreetMapResponses : AxiosValue)
  : Result (option OpenStreetMapResponse) :=
  match openStreetMapResponses with
  | CandidateArray candidates =>
      if isPostalCode location
      then Return (hd_error (filter hasPointGeojson candidates))
      else Return (hd_error candidates)
  | ResponseObject _ => Throw TypeError
  end.

(** The [catch] of lines 95-97 replaces whatever the [try] block throws,
    the rejection of the request included. *)
Definition doOpenStreetMapRequest (location : Location)
  : Result (option OpenStreetMapResponse) :=
  let encodedCanonicalName :=
    buildEncodedCanonicalName (canonical_name location) in
  let url :=
    lit "https://nominatim.openstreetmap.org/search.php?q="
      ++ encodedCanonicalName ++ lit "&polygon_geojson=1&format=json" in
  match
    openStreetMapResponses <- axios_get url ;;
    selectCandidate location openStreetMapResponses
  with
  | Return openStreetMapResponse => Return openStreetMapResponse
  | Throw _ => Throw (Error FAILED_OPENSTREETMAP_REQUEST)
  end.

(** *** getGeojsonCoordinates *)

Definition getGeojsonCoordinates (c : Constants) (location : Location)
  : Result (list (list Coordinate)) :=
  openStreetMapResponse <- doOpenStreetMapRequest location ;;
  match openStreetMapResponse with
  | None => Return []
  | Some response =>
      match geojson response with
      | None => Return []
      | Some g => condenseCoordinates c g
      end
  end.

(** *** generateMapUrl *)

Definition generateMapUrl (c : Constants)
  (location : option LocationArgument) (apiKey : option jsstring)
  : Result jsstring :=
  match apiKey with
  | None => Throw (Error NO_API_KEY)
  | Some key =>
      match location with
      | Some {| argument_canonical_name := Some name;
                argument_target_type := Some target |} =>
          let location' :=
            {| canonical_name := name; target_type := Some target |} in
          coordinates <- getGeojsonCoordinates c location' ;;
          buildMapUrl location' coordinates key
      | _ => Throw (Error NO_LOCATION)
      end
  end.

End Host.

(** * Specification vocabulary *)

(** ** Rings and their points *)

(** The entries the [for] loop appends: every point after [previous], with its
    separation from its predecessor in the ring. *)
Fixpoint withDistances (previous : Position) (rest : list Position)
  : list Coordinate :=
  match rest with
  | [] => []
  | coordinateA :: rest' =>
      {| longitude := fst coordinateA;
         latitude := snd coordinateA;
         distance := calculateCoordinateSeparation coordinateA previous |}
      :: withDistances coordinateA rest'
  end.

(** The running total of the [for] loop over a list of entries. *)
Definition sumDistances (total : number) (entries : list Coordinate) : number :=
  fold_left (fun t entry => (t + distance entry)%float) entries total.

(** [coordinate] is the point of [ring] at [index]: same longitude and
    latitude, and as distance the separation from the point before it in the
    ring, 0 at index 0. *)
Definition originalPoint (ring : Ring) (index : nat) (coordinate : Coordinate)
  : Prop :=
  exists position,
    nth_error ring index = Some position
    /\ longitude coordinate = fst position
    /\ latitude coordinate = snd position
    /\ match index with
       | 0 => distance coordinate = 0%float
       | S before =>
           exists predecessor,
             nth_error ring before = Some predecessor
             /\ distance coordinate
                = calculateCoordinateSeparation position predecessor
       end.

(** The first raw coordinate of a ring as a kept point. *)
Definition firstPoint (first : Position) : Coordinate :=
  {| longitude := fst first; latitude := snd first; distance := 0%float |}.

(** A polygon has a first ring and none of its rings is empty. *)
Definition isEmptyRing (ring : Ring) : bool :=
  match ring with
  | [] => true
  | _ :: _ => false
  end.

Definition wellFormedPolygon (p : RawPolygon) : bool :=
  negb (hasNoRing p) && negb (existsb isEmptyRing p).

Definition wellFormedPolygons (polygons : list RawPolygon) : bool :=
  forallb wellFormedPolygon polygons.

Definition hasOneRing (p : RawPolygon) : bool := length p =? 1.

(** Decreasing first-ring length. *)
Definition notSmaller (p q : RawPolygon) : Prop :=
  firstRingLength q <= firstRingLength p.

(** The number of points of each ring of a result. *)
Definition ringLengths (r : Result (list (list Coordinate)))
  : Result (list nat) :=
  rings <- r ;; Return (map (@length Coordinate) rings).

(** A ring of [n] points that alternates between [a] and [b]. *)
Fixpoint zigzag (n : nat) (a b : Position) : Ring :=
  match n with
  | 0 => []
  | S n' => a :: zigzag n' b a
  end.

(** The decimal fractions of the examples, as the binary64 values the literals
    [0.1] and [0.3] denote. *)
Definition tenth : number := 0x1.999999999999ap-4%float.
Definition threeTenths : number := 0x1.3333333333333p-2%float.

(** The geometry of the test "uses the max polygon count to take the largest
    polygons" of [maps.spec.ts], and its setting of the constants. *)
Definition threePolygons : list RawPolygon :=
  [ [ [ (0, 0); (3, 4); (6, 8) ] ];
    [ [ (0, 0); (3, 4); (6, 8); (9, 12); (12, 16) ] ];
    [ [ (0, 0); (3, 4) ] ] ]%float.

Definition threeIslands : OpenStreetMapGeoJson := MULTIPOLYGON threePolygons.

Definition twoPolygons : Constants :=
  {| DISTANCE_INTERVAL_FREQUENCY := 200%float; MAX_POLYGON_COUNT := 2 |}.

(** ** Canonical names *)

(** A canonical name as a list of components, each a list of words: a word is
    a run of code units that are neither whitespace nor a comma.  A separator
    records the whitespace found in the name: a run between two words, one
    code unit after the comma between two components. *)
Definition Word : Type := jsstring.
Definition Component : Type := (Word * list (jsstring * Word))%type.
Definition Name : Type := (Component * list (char * Component))%type.

Definition isWordChar (c : char) : bool :=
  negb (is_whitespace c) && negb (is_comma c).

Definition isWord (w : Word) : bool :=
  negb (length w =? 0) && forallb isWordChar w.

Definition isSpaceRun (run : jsstring) : bool :=
  negb (length run =? 0) && forallb is_whitespace run.

Definition wellFormedComponent (component : Component) : bool :=
  isWord (fst component)
  && forallb (fun sw => isSpaceRun (fst sw) && isWord (snd sw)) (snd component).

Definition wellFormedName (name : Name) : bool :=
  wellFormedComponent (fst name)
  && forallb (fun sc => is_whitespace (fst sc) && wellFormedComponent (snd sc))
       (snd name).

(** The text does not start with whitespace. *)
Definition startsWithoutSpace (s : jsstring) : Prop :=
  match s with
  | [] => True
  | c :: _ => is_whitespace c = false
  end.

(** The text of a name. *)
Definition componentText (component : Component) : jsstring :=
  fst component
    ++ concat (map (fun sw => fst sw ++ snd sw) (snd component)).

Definition nameText (name : Name) : jsstring :=
  componentText (fst name)
    ++ concat (map (fun sc => comma :: fst sc :: componentText (snd sc))
                 (snd name)).

(** The encoding: words joined by [+], components joined by [,]. *)
Definition encodedComponent (component : Component) : jsstring :=
  fst component ++ concat (map (fun sw => plus :: snd sw) (snd component)).

Definition encodedName (name : Name) : jsstring :=
  encodedComponent (fst name)
    ++ concat (map (fun sc => comma :: encodedComponent (snd sc)) (snd name)).

(** The encoding as the specification words it: whitespace on either side of
    a comma is dropped, every other whitespace code unit becomes [+].
    [afterComma] tells that the last code unit emitted is a comma. *)
Fixpoint nextIsComma (s : jsstring) : bool :=
  match s with
  | [] => false
  | c :: rest =>
      if is_comma c then true
      else if is_whitespace c then nextIsComma rest
      else false
  end.

Fixpoint encodedAsStated (afterComma : bool) (s : jsstring) : jsstring :=
  match s with
  | [] => []
  | c :: rest =>
      if is_comma c then c :: encodedAsStated true rest
      else if is_whitespace c then
        if afterComma || nextIsComma rest then encodedAsStated afterComma rest
        else plus :: encodedAsStated false rest
      else c :: encodedAsStated false rest
  end.

(** ** Shapes *)

(** A host for the examples, which print no number but the integers from 0 to
    9: on these it is Number::toString, the digit; every other number is shown
    as [?]. *)
Definition digitToString (x : number) : jsstring :=
  let digit (n : N) := [(48 + n)%N] in
  if (x =? 0)%float then digit 0%N
  else if (x =? 1)%float then digit 1%N
  else if (x =? 2)%float then digit 2%N
  else if (x =? 3)%float then digit 3%N
  else if (x =? 4)%float then digit 4%N
  else if (x =? 5)%float then digit 5%N
  else if (x =? 6)%float then digit 6%N
  else if (x =? 7)%float then digit 7%N
  else if (x =? 8)%float then digit 8%N
  else if (x =? 9)%float then digit 9%N
  else lit "?".

Section Fragments.

Variable numberToString : number -> jsstring.

(** A point of a path: [|lat,lon]. *)
Definition pointText (coordinate : Coordinate) : jsstring :=
  lit "|" ++ numberToString (latitude coordinate)
    ++ lit "," ++ numberToString (longitude coordinate).

(** The closed path of a ring: the style prefix, every point, and the first
    point once more. *)
Definition closedPathFragment (ring : list Coordinate) : jsstring :=
  pathStyle ++ concat (map pointText ring)
    ++ match ring with
       | first :: _ => pointText first
       | [] => []
       end.

Definition centerFragment (location : Location) : jsstring :=
  lit "&center=" ++ buildEncodedCanonicalName (canonical_name location).

Definition shapeFragment (location : Location) (ring : list Coordinate)
  : jsstring :=
  if 2 <? length ring then closedPathFragment ring
  else centerFragment location.

End Fragments.

(** The four-point ring of the test "creates the shape using coordinates". *)
Definition fourPoints : list Coordinate :=
  [ {| longitude := 1; latitude := 1; distance := 0 |};
    {| longitude := 2; latitude := 2; distance := 0 |};
    {| longitude := 3; latitude := 3; distance := 0 |};
    {| longitude := 4; latitude := 4; distance := 0 |} ]%float.

(** ** Hosts of the examples *)

Definition shropshire : Location :=
  {| canonical_name := lit "Shropshire"; target_type := Some County |}.

Definition shropshireArgument : LocationArgument :=
  {| argument_canonical_name := Some (lit "Shropshire");
     argument_target_type := Some County |}.

(** The geocoding service finds no candidate. *)
Definition noCandidate (url : jsstring) : Result AxiosValue :=
  Return (CandidateArray []).

(** The geocoding service finds one candidate, without a geometry. *)
Definition noGeometry (url : jsstring) : Result AxiosValue :=
  Return (CandidateArray [ {| geojson := None |} ]).

(** ** Vocabulary of the further properties *)

(** A text without a whitespace code unit. *)
Definition NoWhitespace (s : jsstring) : Prop :=
  Forall (fun c => is_whitespace c = false) s.

(** The polygons whose first ring has [n] points. *)
Definition firstRingOf (n : nat) (p : RawPolygon) : bool :=
  firstRingLength p =? n.

(** The argument of [generateMapUrl] passes the check of lines 289-295. *)
Definition isCompleteLocation (location : option LocationArgument) : bool :=
  match location with
  | Some {| argument_canonical_name := Some _;
            argument_target_type := Some _ |} => true
  | _ => false
  end.

(** The code units of a name that are neither whitespace, nor a comma, nor
    [+]. *)
Definition isNameChar (c : char) : bool :=
  negb (is_whitespace c) && negb (is_comma c) && negb (c =? plus)%N.

(** The address [doOpenStreetMapRequest] asks for a canonical name. *)
Definition searchUrl (name : jsstring) : jsstring :=
  lit "https://nominatim.openstreetmap.org/search.php?q="
    ++ buildEncodedCanonicalName name ++ lit "&polygon_geojson=1&format=json".

(** The map address with a center marker on the location and no outline. *)
Definition centerMarkerUrl (name key : jsstring) : jsstring :=
  lit "https://maps.googleapis.com/maps/api/staticmap"
    ++ lit "?size=600x400&scale=2"
    ++ (style ++ lit "&center=" ++ buildEncodedCanonicalName name)
    ++ lit "&key=" ++ key.

(** * Properties *)

(** ** The arithmetic of binary64 that the proofs use *)

Lemma finite_cases (x : number) :
  is_finite x = true ->
  (exists s, Prim2SF x = S754_zero s)
  \/ (exists s m e, Prim2SF x = S754_finite s m e).
Proof.
  unfold is_finite, is_nan, is_infinity.
  rewrite !FloatAxioms.eqb_spec, abs_spec.
  change (Prim2SF infinity) with (S754_infinity false).
  destruct (Prim2SF x) as [s | s | | s m e].
  - intros _. left. now exists s.
  - destruct s; discriminate.
  - discriminate.
  - intros _. right. now exists s, m, e.
Qed.

(** A finite number minus itself is [+0]. *)
Lemma sub_finite_diag (x : number) :
  is_finite x = true -> (x - x)%float = 0%float.
Proof.
  intros Hfinite. apply Prim2SF_inj. rewrite sub_spec.
  change (Prim2SF 0) with (S754_zero false).
  destruct (finite_cases x Hfinite) as [[s E] | [s [m [e E]]]]; rewrite E.
  - now destruct s.
  - unfold SF64sub, SFsub. rewrite Z.sub_diag. reflexivity.
Qed.

(** Zero divided by anything is [+0], [-0] or NaN: never below [+0]. *)
Lemma zero_interval_not_exceeded (frequency : number) :
  (0 / frequency <? 0)%float = false.
Proof.
  rewrite ltb_spec, div_spec.
  change (Prim2SF 0) with (S754_zero false).
  destruct (Prim2SF frequency) as [s | s | | s m e]; reflexivity.
Qed.

Lemma separation_of_finite_point (p : Position) :
  is_finite (fst p) = true -> is_finite (snd p) = true ->
  calculateCoordinateSeparation p p = 0%float.
Proof.
  intros Hlon Hlat. unfold calculateCoordinateSeparation.
  rewrite (sub_finite_diag _ Hlon), (sub_finite_diag _ Hlat).
  reflexivity.
Qed.

(** ** Agreement with the tests of [maps.spec.ts] *)

(** "calculates the distance between two coordinates" and "always calculates
    distance as a positive number". *)
Example separation_3_4_5 :
  calculateCoordinateSeparation (1, 1)%float (4, 5)%float = 5%float
  /\ calculateCoordinateSeparation (-2, -3)%float (1, 1)%float = 5%float
  /\ calculateCoordinateSeparation (1, 1)%float (1, 1)%float = 0%float.
Proof.
  repeat split.
Qed.

(** "condenses coordinates to a reasonable number based on the distance
    interval frequency": with the frequency 4, the ten points of the test are
    condensed to the four the test expects ([4.1] and [5.1] are written as
    the binary64 values the literals denote). *)
Example condense_with_frequency_4 :
  match
    condenseCoordinates
      {| DISTANCE_INTERVAL_FREQUENCY := 4%float; MAX_POLYGON_COUNT := 10 |}
      (POLYGON
         [[ (1, 1); (2, 2); (4, 5);
            (0x1.0666666666666p+2, 0x1.4666666666666p+2);
            (7, 7); (8, 9); (9, 9); (6, 8); (6, 6); (5, 3) ]]%float)
  with
  | Return [ring] =>
      map (fun coordinate => (longitude coordinate, latitude coordinate)) ring
      = [ (1, 1); (0x1.0666666666666p+2, 0x1.4666666666666p+2);
          (8, 9); (6, 6) ]%float
  | _ => False
  end.
Proof.
  reflexivity.
Qed.

(** "returns an empty array if the GeoJSON type is Point" and "throws if the
    GeoJSON type is not a recognised value". *)
Example condense_point_and_unknown :
  condenseCoordinates constants (POINT []) = Return [[]]
  /\ condenseCoordinates constants (OtherType (lit "mock location type"))
     = Throw (Error UNKNOWN_GEOJSON_TYPE).
Proof.
  split; reflexivity.
Qed.

(** ** The two loops of the condensation *)

Lemma distanceLoop_spec (rest : list Position) :
  forall previous total entries,
    distanceLoop previous rest total entries
    = (sumDistances total (withDistances previous rest),
       entries ++ withDistances previous rest).
Proof.
  induction rest as [| a rest IH]; intros previous total entries; simpl.
  - now rewrite app_nil_r.
  - rewrite IH. unfold sumDistances. simpl. now rewrite <- app_assoc.
Qed.

(** The entries of a ring are its points, with predecessor distances. *)
Lemma withDistances_original (rest : list Position) :
  forall previous index coordinate,
    nth_error (withDistances previous rest) index = Some coordinate ->
    originalPoint (previous :: rest) (S index) coordinate.
Proof.
  induction rest as [| a rest IH]; intros previous index coordinate Hnth.
  - destruct index; discriminate.
  - destruct index as [| index]; simpl in Hnth.
    + injection Hnth as <-. exists a. simpl. repeat split.
      exists previous. now split.
    + destruct (IH a index coordinate Hnth) as [q [Hq [Hlon [Hlat Hdist]]]].
      exists q. repeat split; trivial.
Qed.

Lemma entries_original (first : Position) (rest : list Position) :
  forall index coordinate,
    nth_error (firstPoint first :: withDistances first rest) index
    = Some coordinate ->
    originalPoint (first :: rest) index coordinate.
Proof.
  intros [| index] coordinate Hnth.
  - injection Hnth as <-. exists first. now repeat split.
  - now apply withDistances_original.
Qed.

(** The second loop only appends to the array it is given. *)
Lemma takeLoop_keeps (interval : number) (entries : list Coordinate) :
  forall index state,
    exists more,
      snd (takeLoop interval index entries state) = snd state ++ more.
Proof.
  induction entries as [| entry entries IH]; intros index state; simpl.
  - exists []. now rewrite app_nil_r.
  - destruct (IH (S index) (takeCoordinate interval state entry index))
      as [more Hmore].
    rewrite Hmore. unfold takeCoordinate.
    destruct (index =? 0); [| destruct (_ <? _)%float]; simpl.
    + exists (entry :: more). now rewrite <- app_assoc.
    + exists (entry :: more). now rewrite <- app_assoc.
    + now exists more.
Qed.

(** What the second loop appends are entries at increasing positions. *)
Lemma takeLoop_picks (interval : number) (entries : list Coordinate) :
  forall index state,
    exists indices picked,
      snd (takeLoop interval index entries state) = snd state ++ picked
      /\ StronglySorted lt indices
      /\ Forall (fun i => index <= i) indices
      /\ Forall2 (fun i coordinate =>
                    nth_error entries (i - index) = Some coordinate)
           indices picked.
Proof.
  induction entries as [| entry entries IH]; intros index state; simpl.
  - exists [], []. rewrite app_nil_r.
    split; [| split; [| split]]; [reflexivity | constructor ..].
  - destruct (IH (S index) (takeCoordinate interval state entry index))
      as [indices [picked [Hsnd [Hsorted [Hfrom Hnth]]]]].
    rewrite Hsnd.
    assert (Hlater : Forall2 (fun i coordinate =>
              nth_error (entry :: entries) (i - index) = Some coordinate)
              indices picked).
    { clear Hsnd Hsorted. induction Hnth as [| i coordinate indices' picked' Hi _ IHl].
      - constructor.
      - inversion Hfrom as [| ? ? Hle Hfrom']; subst. constructor.
        + replace (i - index) with (S (i - S index)) by lia. exact Hi.
        + now apply IHl. }
    assert (Htaken :
      exists indices' picked',
        (snd state ++ [entry]) ++ picked = snd state ++ picked'
        /\ StronglySorted lt indices'
        /\ Forall (fun i => index <= i) indices'
        /\ Forall2 (fun i coordinate =>
                      nth_error (entry :: entries) (i - index)
                      = Some coordinate) indices' picked').
    { exists (index :: indices), (entry :: picked).
      split; [| split; [| split]].
      - now rewrite <- app_assoc.
      - apply SSorted_cons; [exact Hsorted |].
        eapply Forall_impl; [| exact Hfrom]. simpl. intros; lia.
      - apply Forall_cons; [lia |].
        eapply Forall_impl; [| exact Hfrom]. simpl. intros; lia.
      - apply Forall2_cons; [| exact Hlater].
        now rewrite Nat.sub_diag. }
    unfold takeCoordinate.
    destruct (index =? 0); [| destruct (_ <? _)%float]; simpl; trivial.
    exists indices, picked. split; [| split; [| split]]; trivial.
    eapply Forall_impl; [| exact Hfrom]. simpl. intros; lia.
Qed.

(** With a zero budget that a zero accumulator does not exceed, entries at
    distance 0 are all dropped after the first. *)
Lemma takeLoop_zero (interval : number) (entries : list Coordinate) :
  (interval <? 0)%float = false ->
  Forall (fun entry => distance entry = 0%float) entries ->
  forall index kept,
    takeLoop interval (S index) entries (0%float, kept) = (0%float, kept).
Proof.
  intros Hbudget Hzero. induction Hzero as [| entry entries Hd _ IH];
    intros index kept; simpl.
  - reflexivity.
  - unfold takeCoordinate. simpl. rewrite Hd.
    change (0 + 0)%float with 0%float. rewrite Hbudget. apply IH.
Qed.

Lemma sumDistances_zero (entries : list Coordinate) :
  Forall (fun entry => distance entry = 0%float) entries ->
  sumDistances 0%float entries = 0%float.
Proof.
  unfold sumDistances. induction 1 as [| entry entries Hd _ IH]; simpl.
  - reflexivity.
  - rewrite Hd. exact IH.
Qed.

(** A ring that repeats one finite position has all its steps at distance 0. *)
Lemma withDistances_repeat (p : Position) (n : nat) :
  is_finite (fst p) = true -> is_finite (snd p) = true ->
  Forall (fun entry => distance entry = 0%float)
    (withDistances p (repeat p n)).
Proof.
  intros Hlon Hlat. induction n as [| n IH]; simpl; constructor; trivial.
  simpl. now apply separation_of_finite_point.
Qed.

(** The callback on a ring with a first point, in terms of the entries. *)
Lemma condenseRawPolygonnonempty (c : Constants) (multipolygon : bool)
  (index : nat) (first : Position) (rest : list Position) :
  condensePolygon c multipolygon (Some (first :: rest)) index
  = Return
      (snd (takeLoop
              (sumDistances 0%float (withDistances first rest)
               / frequencyOf c multipolygon index)%float
              0 (firstPoint first :: withDistances first rest)
              (0%float, []))).
Proof.
  unfold condensePolygon. now rewrite distanceLoop_spec.
Qed.

(** ** The order and the cap on the polygons of a MultiPolygon *)

Lemma insertRawPolygonperm (p : RawPolygon) (sorted : list RawPolygon) :
  Permutation (insertPolygon p sorted) (p :: sorted).
Proof.
  induction sorted as [| q rest IH]; simpl.
  - apply Permutation_refl.
  - destruct (firstRingLength q <=? firstRingLength p).
    + apply Permutation_refl.
    + apply perm_trans with (q :: p :: rest).
      * now apply perm_skip.
      * apply perm_swap.
Qed.

Lemma sortPolygons_perm (polygons : list RawPolygon) :
  Permutation (sortPolygons polygons) polygons.
Proof.
  induction polygons as [| p polygons IH]; simpl.
  - apply perm_nil.
  - apply perm_trans with (p :: sortPolygons polygons).
    + apply insertRawPolygonperm.
    + now apply perm_skip.
Qed.

Lemma insertRawPolygonsorted (p : RawPolygon) (sorted : list RawPolygon) :
  StronglySorted notSmaller sorted ->
  StronglySorted notSmaller (insertPolygon p sorted).
Proof.
  induction 1 as [| q rest Hrest IH Hq]; simpl.
  - repeat constructor.
  - destruct (firstRingLength q <=? firstRingLength p) eqn:Hle.
    + apply Nat.leb_le in Hle. apply SSorted_cons.
      * now apply SSorted_cons.
      * apply Forall_cons; [exact Hle |].
        eapply Forall_impl; [| exact Hq].
        unfold notSmaller. simpl. intros; lia.
    + apply Nat.leb_gt in Hle. apply SSorted_cons; [exact IH |].
      eapply Permutation_Forall.
      * apply Permutation_sym, insertRawPolygonperm.
      * apply Forall_cons; [unfold notSmaller; lia | exact Hq].
Qed.

Lemma sortPolygons_sorted (polygons : list RawPolygon) :
  StronglySorted notSmaller (sortPolygons polygons).
Proof.
  induction polygons as [| p polygons IH]; simpl.
  - constructor.
  - now apply insertRawPolygonsorted.
Qed.

Lemma StronglySorted_split {A : Type} (R : A -> A -> Prop)
  (front back : list A) :
  StronglySorted R (front ++ back) ->
  StronglySorted R front
  /\ forall x y, In x front -> In y back -> R x y.
Proof.
  induction front as [| a front IH]; simpl; intros Hsorted.
  - split; [constructor | intros x y []].
  - inversion Hsorted as [| ? ? Htail Hall]; subst.
    destruct (IH Htail) as [Hfront Hcross]. split.
    + apply SSorted_cons; trivial.
      apply Forall_forall. intros x Hx.
      rewrite Forall_forall in Hall. apply Hall, in_or_app. now left.
    + intros x y [<- | Hx] Hy.
      * rewrite Forall_forall in Hall. apply Hall, in_or_app. now right.
      * now apply Hcross.
Qed.

Lemma kept_from_input (n : nat) (polygons : list RawPolygon) (p : RawPolygon) :
  In p (firstn n (sortPolygons polygons)) -> In p polygons.
Proof.
  intros Hin. apply (Permutation_in _ (sortPolygons_perm polygons)).
  rewrite <- (firstn_skipn n (sortPolygons polygons)).
  apply in_or_app. now left.
Qed.

(** ** The map over the rings *)

Lemma mapi_from_condense (c : Constants) (multipolygon : bool)
  (rings : list Ring) :
  Forall (fun ring => isEmptyRing ring = false) rings ->
  forall index,
    exists out,
      mapi_from (condensePolygon c multipolygon) index (map Some rings)
      = Return out
      /\ Forall2 (fun ring condensed =>
                    exists first rest tail,
                      ring = first :: rest
                      /\ condensed = firstPoint first :: tail)
           rings out.
Proof.
  induction 1 as [| ring rings Hring _ IH]; intros index; cbn [map mapi_from].
  - exists []. split; [reflexivity | constructor].
  - destruct ring as [| first rest]; [discriminate |].
    rewrite condenseRawPolygonnonempty. cbn [bind takeLoop].
    destruct (takeLoop_keeps
                (sumDistances 0 (withDistances first rest)
                 / frequencyOf c multipolygon index)%float
                (withDistances first rest) 1
                (0 + 0, [firstPoint first])%float) as [tail Htail].
    destruct (IH (S index)) as [out [Hout Hrings]]. rewrite Hout.
    cbn [bind]. eexists. split; [reflexivity |].
    apply Forall2_cons; [| exact Hrings].
    exists first, rest, tail. split; [reflexivity |].
    exact Htail.
Qed.

Lemma wellFormed_rings (n : nat) (polygons : list RawPolygon) :
  wellFormedPolygons polygons = true ->
  Forall (fun ring => isEmptyRing ring = false)
    (concat (firstn n (sortPolygons polygons))).
Proof.
  intros Hwf. apply Forall_forall. intros ring Hin.
  apply in_concat in Hin. destruct Hin as [p [Hp Hring]].
  apply kept_from_input in Hp.
  unfold wellFormedPolygons in Hwf. rewrite forallb_forall in Hwf.
  specialize (Hwf p Hp). unfold wellFormedPolygon in Hwf.
  apply andb_true_iff in Hwf. destruct Hwf as [_ Hrings].
  apply negb_true_iff in Hrings.
  destruct (isEmptyRing ring) eqn:Hempty; trivial.
  assert (Hex : existsb isEmptyRing p = true).
  { apply existsb_exists. now exists ring. }
  congruence.
Qed.

Lemma wellFormed_has_rings (polygons : list RawPolygon) :
  wellFormedPolygons polygons = true -> existsb hasNoRing polygons = false.
Proof.
  intros Hwf. destruct (existsb hasNoRing polygons) eqn:Hex; trivial.
  apply existsb_exists in Hex. destruct Hex as [p [Hp Hnone]].
  unfold wellFormedPolygons in Hwf. rewrite forallb_forall in Hwf.
  specialize (Hwf p Hp). unfold wellFormedPolygon in Hwf.
  rewrite Hnone in Hwf. discriminate.
Qed.

Lemma one_ring_each (polygons : list RawPolygon) :
  Forall (fun p => hasOneRing p = true) polygons ->
  list_sum (map (@length Ring) polygons) = length polygons.
Proof.
  induction 1 as [| p polygons Hp _ IH]; simpl; trivial.
  unfold hasOneRing in Hp. apply Nat.eqb_eq in Hp. lia.
Qed.

(** ** Claims on the condensation of one ring *)

(** C6.  For every non-empty ring, whatever the kind of the geometry, the
    position of the ring in it and the constants, the callback returns, and the
    first element of its result is the first raw coordinate of the ring:
    same longitude and latitude, distance 0. *)
Theorem first_point_always_kept (c : Constants) (multipolygon : bool)
  (index : nat) (first : Position) (rest : list Position) :
  exists tail,
    condensePolygon c multipolygon (Some (first :: rest)) index
    = Return ({| longitude := fst first;
                 latitude := snd first;
                 distance := 0%float |} :: tail).
Proof.
  rewrite condenseRawPolygonnonempty. cbn [takeLoop].
  destruct (takeLoop_keeps
              (sumDistances 0 (withDistances first rest)
               / frequencyOf c multipolygon index)%float
              (withDistances first rest) 1
              (0 + 0, [firstPoint first])%float) as [tail Htail].
  exists tail. f_equal. exact Htail.
Qed.

(** C10.  For every non-empty ring the callback returns a subsequence of the
    ring: the kept points are points of the ring at strictly increasing
    indices, each with its own longitude and latitude and, as distance, its
    separation from the point before it in the ring (0 at index 0). *)
Theorem condensed_is_subsequence (c : Constants) (multipolygon : bool)
  (index : nat) (first : Position) (rest : list Position) :
  exists indices condensed,
    condensePolygon c multipolygon (Some (first :: rest)) index
    = Return condensed
    /\ StronglySorted lt indices
    /\ Forall2 (originalPoint (first :: rest)) indices condensed.
Proof.
  rewrite condenseRawPolygonnonempty.
  destruct (takeLoop_picks
              (sumDistances 0 (withDistances first rest)
               / frequencyOf c multipolygon index)%float
              (firstPoint first :: withDistances first rest) 0
              (0%float, [])) as [indices [picked [Hsnd [Hsorted [_ Hnth]]]]].
  exists indices, picked. split; [| split]; trivial.
  - now rewrite Hsnd.
  - eapply Forall2_impl; [| exact Hnth].
    intros i coordinate Hi. cbv beta in Hi. rewrite Nat.sub_0_r in Hi.
    now apply entries_original.
Qed.

(** C4, as the code has it.  For every ring of exactly one point the
    condensation returns that point alone, with distance 0, whatever the kind
    of geometry, the index and the constants: the first point is pushed before
    any comparison with the budget. *)
Theorem single_point_ring (c : Constants) (multipolygon : bool) (index : nat)
  (p : Position) :
  condensePolygon c multipolygon (Some [p]) index
  = Return [ {| longitude := fst p; latitude := snd p; distance := 0%float |} ]
  /\ condenseCoordinates c (POLYGON [[p]])
     = Return [[ {| longitude := fst p; latitude := snd p;
                    distance := 0%float |} ]].
Proof.
  split; reflexivity.
Qed.

(** C4 as stated fails on the empty ring: reading [polygon[0][0]] throws. *)
Lemma empty_ring_throws :
  condenseCoordinates constants (POLYGON [[]]) = Throw TypeError
  /\ ~ (exists condensed,
          condenseCoordinates constants (POLYGON [[]]) = Return condensed).
Proof.
  split; [reflexivity |]. intros [condensed H]. discriminate H.
Qed.

(** C2, as the code has it.  For every ring in which every point is at
    distance 0 from the point before it, as when all its points are the same
    finite position, the total distance is 0 and the condensation keeps the
    first point only: the accumulator stays at 0, which does not exceed the
    budget, whatever the frequency. *)
Theorem zero_distance_keeps_first (c : Constants) (multipolygon : bool)
  (index : nat) (first : Position) (rest : list Position) :
  Forall (fun entry => distance entry = 0%float) (withDistances first rest) ->
  sumDistances 0%float (withDistances first rest) = 0%float
  /\ condensePolygon c multipolygon (Some (first :: rest)) index
     = Return [ {| longitude := fst first; latitude := snd first;
                   distance := 0%float |} ].
Proof.
  intros Hzero.
  pose proof (sumDistances_zero Hzero) as Htotal.
  split; [exact Htotal |].
  rewrite condenseRawPolygonnonempty, Htotal. cbn [takeLoop].
  change (takeCoordinate _ _ (firstPoint first) 0)
    with ((0 + 0)%float, [firstPoint first]).
  change (0 + 0)%float with 0%float.
  rewrite takeLoop_zero; trivial.
  apply zero_interval_not_exceeded.
Qed.

Lemma zero_distance_keeps_first_witness :
  Forall (fun entry => distance entry = 0%float)
    (withDistances (1, 1)%float (repeat (1, 1)%float 2))
  /\ sumDistances 0%float (withDistances (1, 1)%float (repeat (1, 1)%float 2))
     = 0%float
  /\ condensePolygon constants false (Some (repeat (1, 1)%float 3)) 0
     = Return [ {| longitude := 1; latitude := 1; distance := 0 |} ]%float.
Proof.
  assert (Hzero : Forall (fun entry => distance entry = 0%float)
            (withDistances (1, 1)%float (repeat (1, 1)%float 2))).
  { repeat constructor. }
  split; [exact Hzero |].
  exact (zero_distance_keeps_first constants false 0 (1, 1)%float
           (repeat (1, 1)%float 2) Hzero).
Defined.

(** C2 as stated fails: of three identical points, one is kept, not three. *)
Lemma identical_points_not_all_kept :
  condenseCoordinates constants (POLYGON [[ (1, 1); (1, 1); (1, 1) ]]%float)
  = Return [[ {| longitude := 1; latitude := 1; distance := 0 |} ]]%float
  /\ ringLengths
       (condenseCoordinates constants
          (POLYGON [[ (1, 1); (1, 1); (1, 1) ]]%float))
     <> Return [3].
Proof.
  split; [reflexivity | discriminate].
Qed.

(** C5 fails on the code: the sums are rounded.  Ten steps of 0.1 add up to
    0.9999999999999999, a tenth of which is below 0.1, so each of the ten
    steps exceeds the budget and a ring at index 2 of a MultiPolygon keeps 11
    points under the frequency 10; likewise 200 steps of 0.3 add up to
    59.99999999999979 and a Polygon ring keeps 201 points under the
    frequency 200. *)
Theorem frequency_exceeded :
  ringLengths
    (condenseCoordinates constants
       (MULTIPOLYGON
          [ [ [ (0, 0) ]; [ (0, 0) ]; zigzag 11 (0, 0) (tenth, 0) ] ]%float))
  = Return [1; 1; 11]
  /\ ringLengths
       (condenseCoordinates constants
          (POLYGON [ zigzag 201 (0, 0)%float (threeTenths, 0%float) ]))
     = Return [201].
Proof.
  split; vm_compute; reflexivity.
Qed.

(** ** Claims on the polygons of a MultiPolygon *)

(** C3, as the code has it.  For every MultiPolygon whose polygons have a
    first ring and no empty ring, the condensation returns one ring for each
    ring of the kept polygons: the number of output rings is the sum of the
    ring counts of the kept polygons, which is the smaller of the number of
    polygons and MAX_POLYGON_COUNT when every polygon has exactly one ring. *)
Theorem multipolygon_ring_count (c : Constants) (polygons : list RawPolygon) :
  wellFormedPolygons polygons = true ->
  exists condensed,
    condenseCoordinates c (MULTIPOLYGON polygons) = Return condensed
    /\ length condensed
       = list_sum (map (@length Ring)
                     (firstn (MAX_POLYGON_COUNT c) (sortPolygons polygons)))
    /\ (forallb hasOneRing polygons = true ->
        length condensed
        = Nat.min (length polygons) (MAX_POLYGON_COUNT c)).
Proof.
  intros Hwf.
  destruct (mapi_from_condense c true
              (wellFormed_rings (MAX_POLYGON_COUNT c) polygons Hwf) 0)
    as [condensed [Hcondensed Hrings]].
  exists condensed.
  assert (Hlength : length condensed
            = list_sum (map (@length Ring)
                (firstn (MAX_POLYGON_COUNT c) (sortPolygons polygons)))).
  { rewrite <- (Forall2_length Hrings). apply length_concat. }
  split; [| split]; trivial.
  - unfold condenseCoordinates, rawCoordinatesOf. cbn [is_point].
    rewrite (wellFormed_has_rings polygons Hwf), andb_false_r.
    exact Hcondensed.
  - intros Hone. rewrite Hlength, one_ring_each.
    + rewrite length_firstn, (Permutation_length (sortPolygons_perm polygons)).
      apply Nat.min_comm.
    + apply Forall_forall. intros p Hp. apply kept_from_input in Hp.
      rewrite forallb_forall in Hone. now apply Hone.
Qed.

Lemma multipolygon_ring_count_witness :
  wellFormedPolygons threePolygons = true
  /\ exists condensed,
       condenseCoordinates twoPolygons (MULTIPOLYGON threePolygons)
       = Return condensed
       /\ length condensed
          = list_sum (map (@length Ring)
                        (firstn (MAX_POLYGON_COUNT twoPolygons)
                           (sortPolygons threePolygons)))
       /\ (forallb hasOneRing threePolygons = true ->
           length condensed
           = Nat.min (length threePolygons) (MAX_POLYGON_COUNT twoPolygons)).
Proof.
  split; [reflexivity |].
  apply (multipolygon_ring_count twoPolygons threePolygons). reflexivity.
Defined.

(** C3 as stated fails: one polygon with two rings gives two output rings. *)
Lemma one_polygon_two_rings :
  ringLengths
    (condenseCoordinates constants
       (MULTIPOLYGON [ [ [ (0, 0) ]; [ (1, 1) ] ] ]%float))
  = Return [1; 1]
  /\ ~ (exists condensed,
          condenseCoordinates constants
            (MULTIPOLYGON [ [ [ (0, 0) ]; [ (1, 1) ] ] ]%float)
          = Return condensed
          /\ length condensed = 1).
Proof.
  split; [reflexivity |].
  intros [condensed [H Hlength]].
  vm_compute in H. injection H as <-. discriminate Hlength.
Qed.

(** C7.  For every MultiPolygon whose polygons have a first ring, the rings
    that are condensed are those of the kept polygons, in order, where the
    kept polygons are in decreasing order of first-ring length, are as many
    as MAX_POLYGON_COUNT allows, and have a first ring at least as long as
    that of every dropped polygon.  With MAX_POLYGON_COUNT = 2 and first
    rings of 3, 5 and 2 points the result has two rings, of 5 and 3 points. *)
Theorem multipolygon_keeps_largest (c : Constants)
  (polygons : list RawPolygon) :
  existsb hasNoRing polygons = false ->
  (exists kept dropped,
     Permutation polygons (kept ++ dropped)
     /\ length kept = Nat.min (MAX_POLYGON_COUNT c) (length polygons)
     /\ StronglySorted notSmaller kept
     /\ (forall k d, In k kept -> In d dropped -> notSmaller k d)
     /\ rawCoordinatesOf c (MULTIPOLYGON polygons)
        = Return (map Some (concat kept))
     /\ condenseCoordinates c (MULTIPOLYGON polygons)
        = mapi (condensePolygon c true) (map Some (concat kept)))
  /\ ringLengths (condenseCoordinates twoPolygons threeIslands)
     = Return [5; 3].
Proof.
  intros Hrings. split; [| reflexivity].
  exists (firstn (MAX_POLYGON_COUNT c) (sortPolygons polygons)),
         (skipn (MAX_POLYGON_COUNT c) (sortPolygons polygons)).
  pose proof (sortPolygons_sorted polygons) as Hsorted.
  rewrite <- (firstn_skipn (MAX_POLYGON_COUNT c) (sortPolygons polygons))
    in Hsorted.
  destruct (StronglySorted_split _ _ Hsorted) as [Hkept Hcross].
  assert (Hraw : rawCoordinatesOf c (MULTIPOLYGON polygons)
            = Return (map Some (concat
                (firstn (MAX_POLYGON_COUNT c) (sortPolygons polygons))))).
  { unfold rawCoordinatesOf. now rewrite Hrings, andb_false_r. }
  split; [| split; [| split; [| split; [| split]]]]; trivial.
  - rewrite firstn_skipn. apply Permutation_sym, sortPolygons_perm.
  - rewrite length_firstn.
    now rewrite (Permutation_length (sortPolygons_perm polygons)).
  - unfold condenseCoordinates. cbn [is_point]. now rewrite Hraw.
Qed.

Lemma multipolygon_keeps_largest_witness :
  existsb hasNoRing threePolygons = false
  /\ (exists kept dropped,
        Permutation threePolygons (kept ++ dropped)
        /\ length kept
           = Nat.min (MAX_POLYGON_COUNT twoPolygons) (length threePolygons)
        /\ StronglySorted notSmaller kept
        /\ (forall k d, In k kept -> In d dropped -> notSmaller k d)
        /\ rawCoordinatesOf twoPolygons (MULTIPOLYGON threePolygons)
           = Return (map Some (concat kept))
        /\ condenseCoordinates twoPolygons (MULTIPOLYGON threePolygons)
           = mapi (condensePolygon twoPolygons true)
               (map Some (concat kept)))
  /\ ringLengths (condenseCoordinates twoPolygons threeIslands)
     = Return [5; 3].
Proof.
  split; [reflexivity |].
  apply (multipolygon_keeps_largest twoPolygons threePolygons). reflexivity.
Defined.

(** ** The two replacements of buildEncodedCanonicalName *)

Lemma whitespace_not_comma (c : char) :
  is_whitespace c = true -> is_comma c = false.
Proof.
  unfold is_comma. destruct (N.eqb_spec c comma) as [-> |]; trivial.
  discriminate.
Qed.

Lemma replaceFrom_skip (pattern : Pattern) (replacement : jsstring)
  (matched rest : jsstring) :
  replaceFrom pattern replacement (length matched) (matched ++ rest)
  = replaceFrom pattern replacement 0 rest.
Proof.
  induction matched as [| c matched IH]; simpl; trivial.
Qed.

Lemma replaceFrom_copy (pattern : Pattern) (replacement : jsstring)
  (c : char) (rest : jsstring) :
  pattern (c :: rest) = None ->
  replaceFrom pattern replacement 0 (c :: rest)
  = c :: replaceFrom pattern replacement 0 rest.
Proof.
  intros Hnone. simpl. now rewrite Hnone.
Qed.

Lemma commasThenSpace_none (c : char) (rest : jsstring) :
  is_comma c = false -> commasThenSpace (c :: rest) = None.
Proof.
  intros Hc. unfold commasThenSpace. simpl. now rewrite Hc.
Qed.

Lemma spaces_none (c : char) (rest : jsstring) :
  is_whitespace c = false -> spaces (c :: rest) = None.
Proof.
  intros Hc. unfold spaces. simpl. now rewrite Hc.
Qed.

(** Text without a comma is copied by the first replacement. *)
Lemma commas_copy (text rest : jsstring) :
  Forall (fun c => is_comma c = false) text ->
  replaceFrom commasThenSpace (lit ",") 0 (text ++ rest)
  = text ++ replaceFrom commasThenSpace (lit ",") 0 rest.
Proof.
  induction 1 as [| c text Hc _ IH]; trivial.
  rewrite <- !app_comm_cons, replaceFrom_copy, IH; trivial.
  now apply commasThenSpace_none.
Qed.

(** A comma and the whitespace code unit after it become a comma. *)
Lemma commas_strip (space : char) (rest : jsstring) :
  is_whitespace space = true ->
  replaceFrom commasThenSpace (lit ",") 0 (comma :: space :: rest)
  = comma :: replaceFrom commasThenSpace (lit ",") 0 rest.
Proof.
  intros Hspace.
  assert (Hmatch : commasThenSpace (comma :: space :: rest) = Some 2).
  { unfold commasThenSpace. simpl.
    rewrite (whitespace_not_comma _ Hspace). simpl. now rewrite Hspace. }
  cbn [replaceFrom]. rewrite Hmatch. reflexivity.
Qed.

(** Text without whitespace is copied by the second replacement. *)
Lemma spaces_copy (text rest : jsstring) :
  Forall (fun c => is_whitespace c = false) text ->
  replaceFrom spaces (lit "+") 0 (text ++ rest)
  = text ++ replaceFrom spaces (lit "+") 0 rest.
Proof.
  induction 1 as [| c text Hc _ IH]; trivial.
  rewrite <- !app_comm_cons, replaceFrom_copy, IH; trivial.
  now apply spaces_none.
Qed.

Lemma runLength_run (run rest : jsstring) :
  Forall (fun c => is_whitespace c = true) run ->
  startsWithoutSpace rest ->
  runLength is_whitespace (run ++ rest) = length run.
Proof.
  intros Hrun Hrest. induction Hrun as [| c run Hc _ IH]; simpl.
  - destruct rest as [| d rest]; trivial. simpl in *. now rewrite Hrest.
  - now rewrite Hc, IH.
Qed.

(** A whitespace run that ends before [rest] becomes one [+]. *)
Lemma spaces_collapse (run rest : jsstring) :
  isSpaceRun run = true ->
  startsWithoutSpace rest ->
  replaceFrom spaces (lit "+") 0 (run ++ rest)
  = plus :: replaceFrom spaces (lit "+") 0 rest.
Proof.
  unfold isSpaceRun. intros Hrun Hrest.
  apply andb_true_iff in Hrun. destruct Hrun as [Hlength Hall].
  rewrite forallb_forall in Hall. rewrite <- Forall_forall in Hall.
  destruct run as [| c run]; [discriminate |].
  assert (Hmatch : spaces ((c :: run) ++ rest) = Some (S (length run))).
  { unfold spaces. now rewrite (runLength_run _ Hall Hrest). }
  rewrite <- app_comm_cons in *. cbn [replaceFrom]. rewrite Hmatch.
  now rewrite replaceFrom_skip.
Qed.

Lemma word_chars (w : Word) :
  isWord w = true ->
  Forall (fun c => is_comma c = false) w
  /\ Forall (fun c => is_whitespace c = false) w
  /\ forall rest, startsWithoutSpace (w ++ rest).
Proof.
  unfold isWord. intros Hword.
  apply andb_true_iff in Hword. destruct Hword as [Hlength Hall].
  rewrite forallb_forall in Hall.
  assert (Hchar : forall c, In c w ->
            is_comma c = false /\ is_whitespace c = false).
  { intros c Hc. specialize (Hall c Hc). unfold isWordChar in Hall.
    apply andb_true_iff in Hall. destruct Hall as [Hs Hcomma].
    now rewrite negb_true_iff in Hs, Hcomma. }
  split; [| split].
  - apply Forall_forall. intros c Hc. now apply Hchar.
  - apply Forall_forall. intros c Hc. now apply Hchar.
  - destruct w as [| c w]; [discriminate |]. intros rest. simpl.
    apply Hchar. now left.
Qed.

Lemma run_chars (run : jsstring) :
  isSpaceRun run = true -> Forall (fun c => is_comma c = false) run.
Proof.
  unfold isSpaceRun. intros Hrun.
  apply andb_true_iff in Hrun. destruct Hrun as [_ Hall].
  rewrite forallb_forall in Hall. apply Forall_forall. intros c Hc.
  now apply whitespace_not_comma, Hall.
Qed.

(** A component has no comma: the first replacement copies it. *)
Lemma component_without_comma (component : Component) :
  wellFormedComponent component = true ->
  Forall (fun c => is_comma c = false) (componentText component).
Proof.
  destruct component as [w separated]. unfold wellFormedComponent,
    componentText. cbn [fst snd]. intros Hwf.
  apply andb_true_iff in Hwf. destruct Hwf as [Hw Hrest].
  apply Forall_app. split; [now apply word_chars |].
  induction separated as [| [run w'] separated IH]; [constructor |].
  cbn [forallb fst snd] in Hrest.
  apply andb_true_iff in Hrest. destruct Hrest as [Hhead Htail].
  apply andb_true_iff in Hhead. destruct Hhead as [Hrun Hw'].
  cbn [map concat fst snd]. rewrite !Forall_app. repeat split.
  - now apply run_chars.
  - now apply word_chars.
  - now apply IH.
Qed.

(** The second replacement on a component followed by [rest]. *)
Lemma component_encoded (component : Component) (rest : jsstring) :
  wellFormedComponent component = true ->
  startsWithoutSpace rest ->
  replaceFrom spaces (lit "+") 0 (componentText component ++ rest)
  = encodedComponent component ++ replaceFrom spaces (lit "+") 0 rest.
Proof.
  destruct component as [w separated]. unfold wellFormedComponent,
    componentText, encodedComponent. cbn [fst snd]. intros Hwf Hrest.
  apply andb_true_iff in Hwf. destruct Hwf as [Hw Hseparated].
  rewrite <- !app_assoc. rewrite spaces_copy by now apply word_chars.
  f_equal. clear Hw.
  induction separated as [| [run w'] separated IH].
  - reflexivity.
  - cbn [forallb fst snd] in Hseparated.
    apply andb_true_iff in Hseparated. destruct Hseparated as [Hhead Htail].
    apply andb_true_iff in Hhead. destruct Hhead as [Hrun Hw'].
    cbn [map concat fst snd]. rewrite <- !app_assoc.
    rewrite spaces_collapse; trivial; [| now apply word_chars].
    rewrite spaces_copy by now apply word_chars.
    rewrite IH by exact Htail. reflexivity.
Qed.

Lemma separators_stripped (components : list (char * Component)) :
  forallb (fun sc => is_whitespace (fst sc) && wellFormedComponent (snd sc))
    components = true ->
  replaceFrom commasThenSpace (lit ",") 0
    (concat (map (fun sc => comma :: fst sc :: componentText (snd sc))
               components))
  = concat (map (fun sc => comma :: componentText (snd sc)) components).
Proof.
  induction components as [| [space component] components IH]; intros Hwf.
  - reflexivity.
  - cbn [forallb fst snd] in Hwf.
    apply andb_true_iff in Hwf. destruct Hwf as [Hhead Htail].
    apply andb_true_iff in Hhead. destruct Hhead as [Hspace Hcomponent].
    cbn [map concat fst snd]. rewrite <- !app_comm_cons.
    rewrite commas_strip by exact Hspace.
    rewrite commas_copy by now apply component_without_comma.
    now rewrite IH.
Qed.

Lemma components_encoded (components : list (char * Component)) :
  forallb (fun sc => is_whitespace (fst sc) && wellFormedComponent (snd sc))
    components = true ->
  replaceFrom spaces (lit "+") 0
    (concat (map (fun sc => comma :: componentText (snd sc)) components))
  = concat (map (fun sc => comma :: encodedComponent (snd sc)) components).
Proof.
  induction components as [| [space component] components IH]; intros Hwf.
  - reflexivity.
  - cbn [forallb fst snd] in Hwf.
    apply andb_true_iff in Hwf. destruct Hwf as [Hhead Htail].
    apply andb_true_iff in Hhead. destruct Hhead as [_ Hcomponent].
    cbn [map concat fst snd]. rewrite <- !app_comm_cons.
    rewrite replaceFrom_copy by now apply spaces_none.
    rewrite component_encoded; trivial.
    + now rewrite IH.
    + destruct components as [| next components]; simpl; trivial.
Qed.

(** ** Claims on the encoded canonical name *)

(** C9 fails on the code.  The doc comment of the function says that
    whitespace next to commas is removed and other whitespace becomes [+],
    and the claim says the same; the pattern [/,+\s/] removes one whitespace
    code unit after a run of commas and nothing else.  Whitespace before a
    comma is left and becomes a [+] next to the comma, and so does the second
    of two whitespace code units after a comma.  The two names that the claim
    gives as examples are encoded as it says. *)
Theorem whitespace_next_to_comma_remains :
  buildEncodedCanonicalName (lit "a ,b") = lit "a+,b"
  /\ encodedAsStated false (lit "a ,b") = lit "a,b"
  /\ buildEncodedCanonicalName (lit "a,  b") = lit "a,+b"
  /\ encodedAsStated false (lit "a,  b") = lit "a,b"
  /\ buildEncodedCanonicalName (lit "SY7, Shropshire, England")
     = lit "SY7,Shropshire,England"
  /\ buildEncodedCanonicalName
       (lit "Nottingham Forest, Great Britain, United Kingdom")
     = lit "Nottingham+Forest,Great+Britain,United+Kingdom".
Proof.
  repeat split.
Qed.

(** ** Claims on the shape *)

Lemma fold_appendPoint (numberToString : number -> jsstring)
  (ring : list Coordinate) :
  forall path,
    fold_left (appendPoint numberToString) ring path
    = path ++ concat (map (pointText numberToString) ring).
Proof.
  induction ring as [| coordinate ring IH]; intros path; cbn [fold_left map concat].
  - now rewrite app_nil_r.
  - rewrite IH. unfold appendPoint, pointText. now rewrite <- !app_assoc.
Qed.

Lemma appendShape_fragment (numberToString : number -> jsstring)
  (location : Location) (fullPath : jsstring) (ring : list Coordinate) :
  appendShape numberToString location fullPath ring
  = fullPath ++ shapeFragment numberToString location ring.
Proof.
  unfold appendShape, shapeFragment, closedPathFragment, centerFragment.
  destruct (2 <? length ring); [| reflexivity].
  rewrite fold_appendPoint.
  destruct ring as [| first ring].
  - now rewrite !app_nil_r.
  - unfold pointText. now rewrite <- !app_assoc.
Qed.

Lemma fold_appendShape (numberToString : number -> jsstring)
  (location : Location) (rings : list (list Coordinate)) :
  forall fullPath,
    fold_left (appendShape numberToString location) rings fullPath
    = fullPath
        ++ concat (map (shapeFragment numberToString location) rings).
Proof.
  induction rings as [| ring rings IH]; intros fullPath;
    cbn [fold_left map concat].
  - now rewrite app_nil_r.
  - now rewrite IH, appendShape_fragment, <- app_assoc.
Qed.

(** C8.  [buildLocationShape] throws NO_COORDINATES_FOUND exactly when the
    list of rings is empty; otherwise it returns the styling parameters
    followed by one fragment per ring, in order: the closed path of the ring
    (every point as [|lat,lon], then the first point again) when the ring has
    more than 2 points, [&center=] and the encoded name otherwise.  For the
    ring (1,1), (2,2), (3,3), (4,4) the result ends with
    [|1,1|2,2|3,3|4,4|1,1], the numbers 1 to 4 printing as their digit. *)
Theorem shape_of_rings (numberToString : number -> jsstring)
  (location : Location) (coordinates : list (list Coordinate)) :
  (buildLocationShape numberToString location coordinates
   = Throw (Error NO_COORDINATES_FOUND) <-> coordinates = [])
  /\ (coordinates <> [] ->
      buildLocationShape numberToString location coordinates
      = Return (style
                  ++ concat (map (shapeFragment numberToString location)
                               coordinates)))
  /\ (numberToString 1%float = lit "1" -> numberToString 2%float = lit "2" ->
      numberToString 3%float = lit "3" -> numberToString 4%float = lit "4" ->
      exists before,
        buildLocationShape numberToString location [fourPoints]
        = Return (before ++ lit "|1,1|2,2|3,3|4,4|1,1")).
Proof.
  split; [| split].
  - unfold buildLocationShape.
    destruct coordinates as [| ring rings]; cbn [length Nat.eqb].
    + split; reflexivity.
    + split; discriminate.
  - intros Hrings. unfold buildLocationShape.
    destruct coordinates as [| ring rings]; [contradiction |].
    cbn [length Nat.eqb]. now rewrite fold_appendShape.
  - intros H1 H2 H3 H4. exists (style ++ pathStyle).
    unfold buildLocationShape. cbn [length Nat.eqb].
    rewrite fold_appendShape. f_equal. rewrite <- app_assoc. f_equal.
    unfold shapeFragment, closedPathFragment, pointText, fourPoints.
    cbn [length Nat.ltb Nat.leb map concat latitude longitude].
    rewrite H1, H2, H3, H4. reflexivity.
Qed.

Lemma shape_of_rings_witness :
  exists before,
    buildLocationShape digitToString shropshire [fourPoints]
    = Return (before ++ lit "|1,1|2,2|3,3|4,4|1,1").
Proof.
  apply (proj2 (proj2 (shape_of_rings digitToString shropshire [fourPoints])));
    reflexivity.
Defined.

(** ** Claims on the whole request *)

(** C1, as the code has it.  For every location with a name and a category
    whose boundary fetch returns no candidate, or a candidate without a
    geometry, [getGeojsonCoordinates] returns the empty list of rings, on
    which [buildMapUrl] throws NO_COORDINATES_FOUND; the caller of
    [generateMapUrl] receives that error. *)
Theorem absent_boundary_is_an_error (numberToString : number -> jsstring)
  (axios_get : jsstring -> Result AxiosValue)
  (c : Constants) (name : jsstring) (target : GoogleLocationTargetType)
  (key : jsstring) :
  doOpenStreetMapRequest axios_get
    {| canonical_name := name; target_type := Some target |}
  = Return None
  \/ doOpenStreetMapRequest axios_get
       {| canonical_name := name; target_type := Some target |}
     = Return (Some {| geojson := None |}) ->
  getGeojsonCoordinates axios_get c
    {| canonical_name := name; target_type := Some target |}
  = Return []
  /\ buildMapUrl numberToString
       {| canonical_name := name; target_type := Some target |} [] key
     = Throw (Error NO_COORDINATES_FOUND)
  /\ generateMapUrl numberToString axios_get c
       (Some {| argument_canonical_name := Some name;
                argument_target_type := Some target |})
       (Some key)
     = Throw (Error NO_COORDINATES_FOUND).
Proof.
  intros Habsent.
  assert (Hrings : getGeojsonCoordinates axios_get c
            {| canonical_name := name; target_type := Some target |}
          = Return []).
  { unfold getGeojsonCoordinates.
    destruct Habsent as [-> | ->]; reflexivity. }
  split; [exact Hrings | split; [reflexivity |]].
  unfold generateMapUrl. rewrite Hrings. reflexivity.
Qed.

Lemma absent_boundary_is_an_error_witness :
  getGeojsonCoordinates noCandidate constants shropshire = Return []
  /\ buildMapUrl digitToString shropshire [] (lit "key")
     = Throw (Error NO_COORDINATES_FOUND)
  /\ generateMapUrl digitToString noCandidate constants
       (Some shropshireArgument) (Some (lit "key"))
     = Throw (Error NO_COORDINATES_FOUND).
Proof.
  apply (absent_boundary_is_an_error digitToString noCandidate constants
           (lit "Shropshire") County (lit "key")).
  left. reflexivity.
Defined.

(** C1 as stated fails: with no candidate, and with a candidate without a
    geometry, [generateMapUrl] does not return a URL. *)
Lemma absent_boundary_no_url :
  generateMapUrl digitToString noCandidate constants
    (Some shropshireArgument) (Some (lit "key"))
  = Throw (Error NO_COORDINATES_FOUND)
  /\ generateMapUrl digitToString noGeometry constants
       (Some shropshireArgument) (Some (lit "key"))
     = Throw (Error NO_COORDINATES_FOUND)
  /\ ~ (exists url,
          generateMapUrl digitToString noCandidate constants
            (Some shropshireArgument) (Some (lit "key"))
          = Return url).
Proof.
  split; [reflexivity | split; [reflexivity |]].
  intros [url H]. discriminate H.
Qed.

(** * Further properties of the code *)

(** ** calculateCoordinateSeparation *)

(** The rounding of a result to binary64 fixes its magnitude whatever the
    sign it is given. *)
Lemma binary_round_aux_cases (s : bool) (m e : Z) (l : location) :
  binary_round_aux prec emax s m e l = S754_zero s
  \/ (exists m' e', binary_round_aux prec emax s m e l = S754_finite s m' e')
  \/ binary_round_aux prec emax s m e l = S754_infinity s
  \/ binary_round_aux prec emax s m e l = S754_nan.
Proof.
  unfold binary_round_aux.
  destruct (shr_fexp prec emax m e l) as [mrs' e'].
  destruct (shr_fexp prec emax _ e' loc_Exact) as [mrs'' e''].
  destruct (shr_m mrs'') as [| p | p].
  - now left.
  - destruct (Z.leb e'' (emax - prec)).
    + right; left. now exists p, e''.
    + right; right; now left.
  - right; right; now right.
Qed.

Lemma binary_round_aux_abs (s s' : bool) (m e : Z) (l : location) :
  SFabs (binary_round_aux prec emax s m e l)
  = SFabs (binary_round_aux prec emax s' m e l).
Proof.
  unfold binary_round_aux.
  destruct (shr_fexp prec emax m e l) as [mrs' e'].
  destruct (shr_fexp prec emax _ e' loc_Exact) as [mrs'' e''].
  destruct (shr_m mrs'') as [| p | p]; trivial.
  now destruct (Z.leb e'' (emax - prec)).
Qed.

Lemma binary_normalize_abs (m e : Z) :
  SFabs (binary_normalize prec emax m e false)
  = SFabs (binary_normalize prec emax (- m) e false).
Proof.
  destruct m as [| p | p]; simpl; trivial; unfold binary_round;
    destruct (shl_align _ _ _) as [mz ez]; apply binary_round_aux_abs.
Qed.

Lemma SFsub_abs_comm (x y : spec_float) :
  SFabs (SF64sub x y) = SFabs (SF64sub y x).
Proof.
  unfold SF64sub, SFsub.
  destruct x as [sx | sx | | sx mx ex], y as [sy | sy | | sy my ey];
    try reflexivity;
    try (destruct sx, sy; reflexivity).
  rewrite (Z.min_comm ey ex).
  rewrite binary_normalize_abs. f_equal. f_equal. ring.
Qed.

(** [Math.abs(x - y)] does not depend on the order of [x] and [y]. *)
Lemma abs_sub_comm (x y : number) : abs (x - y) = abs (y - x).
Proof.
  apply Prim2SF_inj. rewrite !abs_spec, !sub_spec. apply SFsub_abs_comm.
Qed.

(** [Math.sqrt] returns NaN, a zero, or a positive number. *)
Lemma sqrt_not_negative (x : number) : (sqrt x <? 0)%float = false.
Proof.
  rewrite ltb_spec, sqrt_spec.
  change (Prim2SF 0) with (S754_zero false).
  unfold SF64sqrt, SFsqrt.
  destruct (Prim2SF x) as [s | s | | s m e]; try reflexivity.
  - now destruct s.
  - destruct s; [reflexivity |].
    destruct (SFsqrt_core_binary prec emax (Z.pos m) e) as [[mz ez] lz].
    destruct (binary_round_aux_cases false mz ez lz)
      as [-> | [[m' [e' ->]] | [-> | ->]]]; reflexivity.
Qed.

(** X1.  The separation is symmetric: for all positions, also with infinite
    or NaN components, the separation of [a] from [b] is the number the
    separation of [b] from [a] is. *)
Theorem separation_symmetric (a b : Position) :
  calculateCoordinateSeparation a b = calculateCoordinateSeparation b a.
Proof.
  unfold calculateCoordinateSeparation.
  now rewrite (abs_sub_comm (fst a) (fst b)), (abs_sub_comm (snd a) (snd b)).
Qed.

(** X2.  The separation is never negative: for all positions it is not below
    0 (it is NaN, zero or positive). *)
Theorem separation_not_negative (a b : Position) :
  (calculateCoordinateSeparation a b <? 0)%float = false.
Proof.
  unfold calculateCoordinateSeparation. apply sqrt_not_negative.
Qed.

(** X3.  The separation of a position with finite components from itself is
    0, and a ring can rely on it only for finite components: for an infinite
    longitude it is NaN. *)
Theorem separation_from_itself (p : Position) :
  is_finite (fst p) = true -> is_finite (snd p) = true ->
  calculateCoordinateSeparation p p = 0%float
  /\ is_nan (calculateCoordinateSeparation (infinity, snd p) (infinity, snd p))
     = true.
Proof.
  intros Hlon Hlat. split; [now apply separation_of_finite_point |].
  unfold calculateCoordinateSeparation. cbn [fst snd].
  rewrite (sub_finite_diag _ Hlat). reflexivity.
Qed.

Lemma separation_from_itself_witness :
  calculateCoordinateSeparation (1, 1)%float (1, 1)%float = 0%float
  /\ is_nan (calculateCoordinateSeparation (infinity, 1%float)
               (infinity, 1%float))
     = true.
Proof.
  apply (separation_from_itself (1, 1)%float); reflexivity.
Defined.

(** ** condenseCoordinates *)

Lemma withDistances_length (rest : list Position) :
  forall previous, length (withDistances previous rest) = length rest.
Proof.
  induction rest as [| a rest IH]; intros previous; simpl; auto.
Qed.

Lemma takeLoop_length (interval : number) (entries : list Coordinate) :
  forall index state,
    length (snd (takeLoop interval index entries state))
    <= length (snd state) + length entries.
Proof.
  induction entries as [| entry entries IH]; intros index state; simpl.
  - lia.
  - etransitivity; [apply IH |].
    unfold takeCoordinate.
    destruct (index =? 0); [| destruct (_ <? _)%float]; simpl;
      rewrite ?length_app; simpl; lia.
Qed.

(** The second loop keeps a property that the entries and the array it
    starts from have. *)
Lemma takeLoop_Forall (P : Coordinate -> Prop) (interval : number)
  (entries : list Coordinate) :
  Forall P entries ->
  forall index state,
    Forall P (snd state) ->
    Forall P (snd (takeLoop interval index entries state)).
Proof.
  induction 1 as [| entry entries Hentry _ IH]; intros index state Hstate;
    simpl; trivial.
  apply IH. unfold takeCoordinate.
  destruct (index =? 0); [| destruct (_ <? _)%float]; simpl; trivial;
    apply Forall_app; split; trivial; now constructor.
Qed.

Lemma withDistances_not_negative (rest : list Position) :
  forall previous,
    Forall (fun entry => (distance entry <? 0)%float = false)
      (withDistances previous rest).
Proof.
  induction rest as [| a rest IH]; intros previous; simpl; constructor.
  - apply separation_not_negative.
  - apply IH.
Qed.

Lemma condensePolygon_length (c : Constants) (multipolygon : bool)
  (index : nat) (first : Position) (rest : list Position) :
  exists condensed,
    condensePolygon c multipolygon (Some (first :: rest)) index
    = Return condensed
    /\ 1 <= length condensed <= length (first :: rest).
Proof.
  rewrite condenseRawPolygonnonempty. eexists. split; [reflexivity |]. split.
  - cbn [takeLoop].
    destruct (takeLoop_keeps
                (sumDistances 0 (withDistances first rest)
                 / frequencyOf c multipolygon index)%float
                (withDistances first rest) 1
                (0 + 0, [firstPoint first])%float) as [tail Htail].
    change (takeCoordinate _ _ (firstPoint first) 0)
      with ((0 + 0)%float, [firstPoint first]).
    rewrite Htail. simpl. lia.
  - etransitivity; [apply takeLoop_length |].
    simpl. rewrite withDistances_length. lia.
Qed.

(** X4.  The condensation of a non-empty ring returns at least one point and
    at most as many points as the ring has, whatever the kind of geometry,
    the index and the constants. *)
Theorem condensed_length_bounds (c : Constants) (multipolygon : bool)
  (index : nat) (first : Position) (rest : list Position) :
  exists condensed,
    condensePolygon c multipolygon (Some (first :: rest)) index
    = Return condensed
    /\ 1 <= length condensed <= length (first :: rest).
Proof.
  apply condensePolygon_length.
Qed.

(** X5.  No kept point of a non-empty ring carries a negative distance. *)
Theorem condensed_distances_not_negative (c : Constants)
  (multipolygon : bool) (index : nat) (first : Position)
  (rest : list Position) :
  exists condensed,
    condensePolygon c multipolygon (Some (first :: rest)) index
    = Return condensed
    /\ Forall (fun coordinate => (distance coordinate <? 0)%float = false)
         condensed.
Proof.
  rewrite condenseRawPolygonnonempty. eexists. split; [reflexivity |].
  apply takeLoop_Forall.
  - constructor; [reflexivity | apply withDistances_not_negative].
  - constructor.
Qed.

(** X6.  A Polygon and a LineString are condensed alike, from their first
    ring alone: when it has a point the result is one ring, the same whatever
    the other rings are; when it is missing or empty the call throws a
    TypeError. *)
Theorem outline_is_first_ring (c : Constants) (first : Position)
  (rest : list Position) (others others' : list Ring) :
  (exists condensed,
     condenseCoordinates c (POLYGON ((first :: rest) :: others))
     = Return [condensed]
     /\ condenseCoordinates c (LINESTRING ((first :: rest) :: others'))
        = Return [condensed]
     /\ condensePolygon c false (Some (first :: rest)) 0 = Return condensed)
  /\ condenseCoordinates c (POLYGON []) = Throw TypeError
  /\ condenseCoordinates c (LINESTRING []) = Throw TypeError
  /\ condenseCoordinates c (POLYGON ([] :: others)) = Throw TypeError
  /\ condenseCoordinates c (LINESTRING ([] :: others)) = Throw TypeError.
Proof.
  split; [| split; [| split; [| split]]; reflexivity].
  unfold condenseCoordinates, mapi. cbn [is_point rawCoordinatesOf bind
    nth_error is_multipolygon mapi_from].
  eexists. rewrite !condenseRawPolygonnonempty. cbn [bind].
  split; [| split]; reflexivity.
Qed.

(** *** The order of the polygons *)

Lemma insertPolygon_filter (n : nat) (p : RawPolygon)
  (sorted : list RawPolygon) :
  filter (firstRingOf n) (insertPolygon p sorted)
  = filter (firstRingOf n) (p :: sorted).
Proof.
  induction sorted as [| q rest IH]; trivial.
  cbn [insertPolygon].
  destruct (firstRingLength q <=? firstRingLength p) eqn:Hle; trivial.
  apply Nat.leb_gt in Hle.
  cbn [filter] in *. rewrite IH. unfold firstRingOf.
  destruct (firstRingLength p =? n) eqn:Hp; trivial.
  apply Nat.eqb_eq in Hp.
  destruct (firstRingLength q =? n) eqn:Hq; trivial.
  apply Nat.eqb_eq in Hq. lia.
Qed.

Lemma sortPolygons_sorted_input (polygons : list RawPolygon) :
  StronglySorted notSmaller polygons -> sortPolygons polygons = polygons.
Proof.
  induction 1 as [| p polygons _ IH Hp]; trivial.
  cbn [sortPolygons fold_right]. fold (sortPolygons polygons). rewrite IH.
  destruct polygons as [| q polygons]; trivial.
  cbn [insertPolygon]. inversion Hp as [| ? ? Hq _]; subst.
  unfold notSmaller in Hq. apply Nat.leb_le in Hq. now rewrite Hq.
Qed.

(** X7.  The sort is stable: among the polygons of a MultiPolygon whose first
    rings have the same number of points, the order of the input is kept. *)
Theorem sort_keeps_order_of_ties (n : nat) (polygons : list RawPolygon) :
  filter (firstRingOf n) (sortPolygons polygons)
  = filter (firstRingOf n) polygons.
Proof.
  induction polygons as [| p polygons IH]; trivial.
  cbn [sortPolygons fold_right]. fold (sortPolygons polygons).
  rewrite insertPolygon_filter. cbn [filter]. now rewrite IH.
Qed.

(** X8.  A MultiPolygon whose polygons all have a first ring, come in
    decreasing order of first-ring length and are no more than
    MAX_POLYGON_COUNT has all its rings condensed, in the order of the
    input. *)
Theorem ordered_multipolygon_unchanged (c : Constants)
  (polygons : list RawPolygon) :
  existsb hasNoRing polygons = false ->
  StronglySorted notSmaller polygons ->
  length polygons <= MAX_POLYGON_COUNT c ->
  rawCoordinatesOf c (MULTIPOLYGON polygons)
  = Return (map Some (concat polygons))
  /\ condenseCoordinates c (MULTIPOLYGON polygons)
     = mapi (condensePolygon c true) (map Some (concat polygons)).
Proof.
  intros Hrings Hsorted Hcap.
  assert (Hraw : rawCoordinatesOf c (MULTIPOLYGON polygons)
            = Return (map Some (concat polygons))).
  { unfold rawCoordinatesOf. rewrite Hrings, andb_false_r.
    rewrite (sortPolygons_sorted_input Hsorted).
    now rewrite firstn_all2. }
  split; trivial.
  unfold condenseCoordinates. cbn [is_point]. now rewrite Hraw.
Qed.

Lemma ordered_multipolygon_unchanged_witness :
  rawCoordinatesOf constants
    (MULTIPOLYGON [ [ [ (0, 0); (3, 4) ] ]; [ [ (1, 1) ]; [ (2, 2) ] ] ]%float)
  = Return [ Some [ (0, 0); (3, 4) ]; Some [ (1, 1) ]; Some [ (2, 2) ] ]%float
  /\ condenseCoordinates constants
       (MULTIPOLYGON
          [ [ [ (0, 0); (3, 4) ] ]; [ [ (1, 1) ]; [ (2, 2) ] ] ]%float)
     = mapi (condensePolygon constants true)
         [ Some [ (0, 0); (3, 4) ]; Some [ (1, 1) ]; Some [ (2, 2) ] ]%float.
Proof.
  apply (@ordered_multipolygon_unchanged constants
           [ [ [ (0, 0); (3, 4) ] ]; [ [ (1, 1) ]; [ (2, 2) ] ] ]%float).
  - reflexivity.
  - repeat constructor.
  - simpl. lia.
Defined.

(** *** What the condensation throws, and when it returns no ring *)

Lemma mapi_from_condense_throws (c : Constants) (multipolygon : bool)
  (rings : list (option Ring)) :
  forall index e,
    mapi_from (condensePolygon c multipolygon) index rings = Throw e ->
    e = TypeError.
Proof.
  induction rings as [| ring rings IH]; intros index e Hthrow.
  - discriminate Hthrow.
  - cbn [mapi_from] in Hthrow.
    destruct ring as [[| first rest] |];
      try (injection Hthrow as <-; reflexivity).
    rewrite condenseRawPolygonnonempty in Hthrow. cbn [bind] in Hthrow.
    destruct (mapi_from (condensePolygon c multipolygon) (S index) rings)
      as [out | e'] eqn:Hrest; [discriminate Hthrow |].
    injection Hthrow as <-. exact (IH (S index) e' Hrest).
Qed.

Lemma mapi_from_no_result {A B : Type} (f : A -> nat -> Result B)
  (index : nat) (l : list A) :
  mapi_from f index l = Return [] -> l = [].
Proof.
  destruct l as [| a l]; trivial. cbn [mapi_from].
  destruct (f a index) as [b | e]; [| discriminate]. cbn [bind].
  destruct (mapi_from f (S index) l); discriminate.
Qed.

Lemma condenseCoordinates_throws (c : Constants) (geoJson : OpenStreetMapGeoJson)
  (e : Exception) :
  condenseCoordinates c geoJson = Throw e ->
  (e = Error UNKNOWN_GEOJSON_TYPE /\ exists type, geoJson = OtherType type)
  \/ (e = TypeError /\ forall type, geoJson <> OtherType type).
Proof.
  unfold condenseCoordinates, mapi.
  destruct geoJson as [point | rings | rings | polygons | type];
    cbn [is_point rawCoordinatesOf is_multipolygon]; intros Hthrow.
  - discriminate Hthrow.
  - right. split; [| discriminate].
    exact (mapi_from_condense_throws _ _ _ _ Hthrow).
  - right. split; [| discriminate].
    exact (mapi_from_condense_throws _ _ _ _ Hthrow).
  - right. split; [| discriminate].
    destruct ((2 <=? length polygons) && existsb hasNoRing polygons).
    + now injection Hthrow as <-.
    + exact (mapi_from_condense_throws _ _ _ _ Hthrow).
  - left. injection Hthrow as <-. split; trivial. now exists type.
Qed.

(** X9.  The condensation throws UNKNOWN_GEOJSON_TYPE on a geometry of an
    unrecognised kind and on no other; every other exception it throws is the
    TypeError of a missing first ring or an empty ring. *)
Theorem condense_exceptions (c : Constants) (geoJson : OpenStreetMapGeoJson)
  (e : Exception) :
  condenseCoordinates c geoJson = Throw e ->
  (e = Error UNKNOWN_GEOJSON_TYPE /\ exists type, geoJson = OtherType type)
  \/ (e = TypeError /\ forall type, geoJson <> OtherType type).
Proof.
  apply condenseCoordinates_throws.
Qed.

Lemma condense_exceptions_witness :
  (Error UNKNOWN_GEOJSON_TYPE = Error UNKNOWN_GEOJSON_TYPE
   /\ exists type, OtherType (lit "Feature") = OtherType type)
  \/ (Error UNKNOWN_GEOJSON_TYPE = TypeError
      /\ forall type, OtherType (lit "Feature") <> OtherType type).
Proof.
  apply (@condense_exceptions constants (OtherType (lit "Feature"))
           (Error UNKNOWN_GEOJSON_TYPE)).
  reflexivity.
Defined.

(** X10.  The condensation returns no ring at all exactly on a MultiPolygon
    of which no ring is kept: it has no polygon, or one polygon without
    rings, or MAX_POLYGON_COUNT is 0.  These are the geometries on which
    [buildLocationShape] then throws NO_COORDINATES_FOUND. *)
Theorem condense_no_ring (c : Constants) (geoJson : OpenStreetMapGeoJson) :
  condenseCoordinates c geoJson = Return []
  <-> exists polygons,
        geoJson = MULTIPOLYGON polygons
        /\ (polygons = [] \/ polygons = [[]]
            \/ (MAX_POLYGON_COUNT c = 0
                /\ (2 <=? length polygons) && existsb hasNoRing polygons
                   = false)).
Proof.
  unfold condenseCoordinates, mapi. split.
  - destruct geoJson as [point | rings | rings | polygons | type];
      cbn [is_point rawCoordinatesOf is_multipolygon bind]; intros Hnone;
      try discriminate Hnone;
      try (apply mapi_from_no_result in Hnone; discriminate Hnone).
    exists polygons. split; trivial.
    destruct ((2 <=? length polygons) && existsb hasNoRing polygons)
      eqn:Hsort; [discriminate Hnone |].
    cbn [bind] in Hnone. apply mapi_from_no_result in Hnone.
    apply map_eq_nil in Hnone.
    destruct (MAX_POLYGON_COUNT c) as [| cap] eqn:Hcap; [now right; right |].
    destruct polygons as [| p polygons]; [now left |]. right. left.
    pose proof (sortPolygons_perm (p :: polygons)) as Hperm.
    destruct (sortPolygons (p :: polygons)) as [| q sorted] eqn:Hsorted.
    { apply Permutation_length in Hperm. discriminate Hperm. }
    cbn [firstn concat] in Hnone. apply app_eq_nil in Hnone.
    destruct Hnone as [Hq _]. subst q.
    assert (Hin : In [] (p :: polygons)).
    { apply (Permutation_in _ Hperm). now left. }
    assert (Hringless : existsb hasNoRing (p :: polygons) = true).
    { apply existsb_exists. now exists []. }
    rewrite Hringless, andb_true_r in Hsort.
    destruct polygons as [| p' polygons]; [| discriminate Hsort].
    destruct Hin as [-> | []]. reflexivity.
  - intros [polygons [-> Hkept]].
    cbn [is_point rawCoordinatesOf is_multipolygon].
    destruct Hkept as [-> | [-> | [Hcap Hsort]]].
    + cbn. now rewrite firstn_nil.
    + cbn. destruct (MAX_POLYGON_COUNT c); cbn [firstn];
        rewrite ?firstn_nil; reflexivity.
    + now rewrite Hsort, Hcap.
Qed.

(** ** buildEncodedCanonicalName *)

Lemma spaces_all_replaced (s : jsstring) :
  forall inside, NoWhitespace (replaceFrom spaces (lit "+") inside s).
Proof.
  unfold NoWhitespace.
  induction s as [| c rest IH]; intros inside.
  - destruct inside; constructor.
  - destruct inside as [| k]; cbn [replaceFrom]; [| apply IH].
    unfold spaces. cbn [runLength].
    destruct (is_whitespace c) eqn:Hc.
    + constructor; [reflexivity | apply IH].
    + constructor; [exact Hc | apply IH].
Qed.

Lemma commasThenSpace_without_space (s : jsstring) :
  NoWhitespace s -> commasThenSpace s = None.
Proof.
  intros Hs. unfold commasThenSpace.
  destruct (runLength is_comma s) as [| n]; trivial.
  destruct (nth_error s (S n)) as [c |] eqn:Hnth; trivial.
  apply nth_error_In in Hnth. unfold NoWhitespace in Hs.
  rewrite Forall_forall in Hs. now rewrite (Hs c Hnth).
Qed.

Lemma commas_without_space (s : jsstring) :
  NoWhitespace s -> replaceFrom commasThenSpace (lit ",") 0 s = s.
Proof.
  induction s as [| c rest IH]; intros Hs; trivial.
  rewrite replaceFrom_copy by now apply commasThenSpace_without_space.
  inversion Hs; subst. now rewrite IH.
Qed.

Lemma encoded_without_space (s : jsstring) :
  NoWhitespace s -> buildEncodedCanonicalName s = s.
Proof.
  intros Hs. unfold buildEncodedCanonicalName, replaceAll.
  rewrite (commas_without_space Hs).
  rewrite <- (app_nil_r s) at 1. rewrite (spaces_copy [] Hs).
  apply app_nil_r.
Qed.

Lemma replaceFrom_length (pattern : Pattern) (replacement : jsstring) :
  pattern [] = None ->
  (forall s, pattern s <> Some 0) ->
  length replacement <= 1 ->
  forall s inside,
    length (replaceFrom pattern replacement inside s) <= length s - inside.
Proof.
  intros Hempty Hprogress Hreplacement.
  induction s as [| c rest IH]; intros inside.
  - cbn [replaceFrom]. rewrite Hempty. destruct inside; simpl; lia.
  - destruct inside as [| k]; cbn [replaceFrom].
    + destruct (pattern (c :: rest)) as [[| k] |] eqn:Hmatch.
      * now apply Hprogress in Hmatch.
      * rewrite length_app. specialize (IH k). simpl. lia.
      * specialize (IH 0). simpl. lia.
    + apply IH.
Qed.

Lemma commasThenSpace_progress (s : jsstring) : commasThenSpace s <> Some 0.
Proof.
  unfold commasThenSpace.
  destruct (runLength is_comma s); [discriminate |].
  destruct (nth_error s _) as [c |]; [| discriminate].
  destruct (is_whitespace c); discriminate.
Qed.

Lemma spaces_progress (s : jsstring) : spaces s <> Some 0.
Proof.
  unfold spaces. destruct (runLength is_whitespace s); discriminate.
Qed.

(** X11.  The encoded canonical name never contains whitespace, whatever the
    name is. *)
Theorem encoded_name_has_no_whitespace (canonicalName : jsstring) :
  NoWhitespace (buildEncodedCanonicalName canonicalName).
Proof.
  unfold buildEncodedCanonicalName, replaceAll. apply spaces_all_replaced.
Qed.

(** X12.  A canonical name without whitespace is its own encoding: commas and
    every other code unit are left as they are. *)
Theorem encoded_name_unchanged (canonicalName : jsstring) :
  NoWhitespace canonicalName ->
  buildEncodedCanonicalName canonicalName = canonicalName.
Proof.
  apply encoded_without_space.
Qed.

Lemma encoded_name_unchanged_witness :
  NoWhitespace (lit "Birmingham,England,UnitedKingdom")
  /\ buildEncodedCanonicalName (lit "Birmingham,England,UnitedKingdom")
     = lit "Birmingham,England,UnitedKingdom".
Proof.
  assert (H : NoWhitespace (lit "Birmingham,England,UnitedKingdom")).
  { repeat constructor. }
  split; [exact H |].
  exact (@encoded_name_unchanged (lit "Birmingham,England,UnitedKingdom") H).
Defined.

(** X13.  Encoding is idempotent: encoding an encoded name changes
    nothing. *)
Theorem encoded_name_idempotent (canonicalName : jsstring) :
  buildEncodedCanonicalName (buildEncodedCanonicalName canonicalName)
  = buildEncodedCanonicalName canonicalName.
Proof.
  apply encoded_without_space.
  unfold buildEncodedCanonicalName, replaceAll. apply spaces_all_replaced.
Qed.

(** X14.  The encoded name is never longer than the name. *)
Theorem encoded_name_not_longer (canonicalName : jsstring) :
  length (buildEncodedCanonicalName canonicalName) <= length canonicalName.
Proof.
  unfold buildEncodedCanonicalName, replaceAll.
  etransitivity.
  - apply replaceFrom_length;
      [reflexivity | apply spaces_progress | simpl; lia].
  - rewrite Nat.sub_0_r. etransitivity.
    + apply replaceFrom_length;
        [reflexivity | apply commasThenSpace_progress | simpl; lia].
    + lia.
Qed.

(** The replacement keeps the code units that satisfy [keep], in order, when
    neither a match nor the replacement has one. *)
Lemma replaceFrom_filter (keep : char -> bool) (pattern : Pattern)
  (replacement : jsstring) :
  filter keep replacement = [] ->
  (forall s n, pattern s = Some n -> filter keep (firstn n s) = []) ->
  forall s inside,
    filter keep (firstn inside s) = [] ->
    filter keep (replaceFrom pattern replacement inside s) = filter keep s.
Proof.
  intros Hreplacement Hmatch.
  induction s as [| c rest IH]; intros inside Hinside.
  - cbn [replaceFrom].
    destruct inside; [destruct (pattern []) |]; trivial.
  - destruct inside as [| k]; cbn [replaceFrom].
    + destruct (pattern (c :: rest)) as [[| k] |] eqn:Hp.
      * rewrite filter_app, Hreplacement. cbn [app filter].
        now rewrite (IH 0).
      * specialize (Hmatch _ _ Hp). cbn [firstn filter] in Hmatch.
        rewrite filter_app, Hreplacement. cbn [app filter].
        destruct (keep c); [discriminate Hmatch |]. now apply IH.
      * cbn [filter]. now rewrite (IH 0).
    + cbn [firstn filter] in Hinside. cbn [filter].
      destruct (keep c); [discriminate Hinside |]. now apply IH.
Qed.

Lemma firstn_run (p keep : char -> bool) (s : jsstring) :
  (forall c, p c = true -> keep c = false) ->
  filter keep (firstn (runLength p s) s) = [].
Proof.
  intros Hp. induction s as [| c rest IH]; trivial.
  cbn [runLength]. destruct (p c) eqn:Hc; trivial.
  cbn [firstn filter]. now rewrite (Hp c Hc).
Qed.

Lemma firstn_next (keep : char -> bool) (s : jsstring) :
  forall n c,
    nth_error s n = Some c -> keep c = false ->
    filter keep (firstn n s) = [] ->
    filter keep (firstn (S n) s) = [].
Proof.
  induction s as [| d rest IH]; intros n c Hnth Hc Hfirst.
  - destruct n; discriminate Hnth.
  - destruct n as [| n].
    + injection Hnth as ->. cbn [firstn filter]. now rewrite Hc.
    + cbn [firstn filter] in *.
      destruct (keep d); [discriminate Hfirst |].
      exact (IH n c Hnth Hc Hfirst).
Qed.

Lemma isNameChar_space (c : char) :
  is_whitespace c = true -> isNameChar c = false.
Proof.
  intros Hc. unfold isNameChar. now rewrite Hc.
Qed.

Lemma isNameChar_comma (c : char) :
  is_comma c = true -> isNameChar c = false.
Proof.
  intros Hc. unfold isNameChar. rewrite Hc.
  now destruct (is_whitespace c).
Qed.

(** X15.  The encoding keeps every code unit of the name that is neither
    whitespace, nor a comma, nor [+], and keeps them in the order of the
    name; it adds none. *)
Theorem encoded_name_keeps_characters (canonicalName : jsstring) :
  filter isNameChar (buildEncodedCanonicalName canonicalName)
  = filter isNameChar canonicalName.
Proof.
  unfold buildEncodedCanonicalName, replaceAll.
  rewrite replaceFrom_filter; trivial.
  - apply replaceFrom_filter; trivial.
    intros s n Hn. unfold commasThenSpace in Hn.
    destruct (runLength is_comma s) as [| commas] eqn:Hrun;
      [discriminate Hn |].
    destruct (nth_error s (S commas)) as [c |] eqn:Hnth;
      [| discriminate Hn].
    destruct (is_whitespace c) eqn:Hc; [| discriminate Hn].
    injection Hn as <-.
    apply firstn_next with c; trivial.
    + now apply isNameChar_space.
    + rewrite <- Hrun. apply firstn_run. exact isNameChar_comma.
  - intros s n Hn. unfold spaces in Hn.
    destruct (runLength is_whitespace s) as [| run] eqn:Hrun;
      [discriminate Hn |].
    injection Hn as <-. rewrite <- Hrun.
    apply firstn_run. exact isNameChar_space.
Qed.

(** ** doOpenStreetMapRequest, getGeojsonCoordinates, buildMapUrl and
    generateMapUrl *)

Lemma first_match_none {A : Type} (f : A -> bool) (l : list A) :
  hd_error (filter f l) = None <-> existsb f l = false.
Proof.
  induction l as [| a l IH]; cbn [filter existsb hd_error].
  - split; reflexivity.
  - destruct (f a); cbn [orb hd_error]; [split; discriminate | exact IH].
Qed.

Lemma first_match_some {A : Type} (f : A -> bool) (l : list A) (a : A) :
  hd_error (filter f l) = Some a -> f a = true /\ existsb f l = true.
Proof.
  intros Hhead.
  assert (Hin : In a (filter f l)).
  { destruct (filter f l) as [| b rest]; [discriminate Hhead |].
    injection Hhead as ->. now left. }
  apply filter_In in Hin. destruct Hin as [Hin Hf]. split; trivial.
  apply existsb_exists. now exists a.
Qed.

(** The request, in terms of the address asked and of what the awaited
    value is. *)
Lemma doOpenStreetMapRequest_url
  (axios_get : jsstring -> Result AxiosValue)
  (location : Location) :
  doOpenStreetMapRequest axios_get location
  = match axios_get (searchUrl (canonical_name location)) with
    | Return (CandidateArray candidates) =>
        if isPostalCode location
        then Return (hd_error (filter hasPointGeojson candidates))
        else Return (hd_error candidates)
    | Return (ResponseObject _) => Throw (Error FAILED_OPENSTREETMAP_REQUEST)
    | Throw _ => Throw (Error FAILED_OPENSTREETMAP_REQUEST)
    end.
Proof.
  unfold doOpenStreetMapRequest.
  change (lit "https://nominatim.openstreetmap.org/search.php?q="
            ++ buildEncodedCanonicalName (canonical_name location)
            ++ lit "&polygon_geojson=1&format=json")
    with (searchUrl (canonical_name location)).
  destruct (axios_get (searchUrl (canonical_name location)))
    as [[candidates | data] | e]; cbn [bind selectCandidate]; trivial.
  now destruct (isPostalCode location).
Qed.

(** The map address of a location whose only ring is empty. *)
Lemma buildMapUrl_center (numberToString : number -> jsstring)
  (location : Location) (key : jsstring) :
  buildMapUrl numberToString location [[]] key
  = Return (centerMarkerUrl (canonical_name location) key).
Proof.
  unfold buildMapUrl, buildLocationShape, centerMarkerUrl.
  cbn [length Nat.eqb fold_left bind]. unfold appendShape.
  cbn [length Nat.ltb Nat.leb]. now rewrite <- !app_assoc.
Qed.

Lemma getGeojsonCoordinates_throws
  (axios_get : jsstring -> Result AxiosValue)
  (c : Constants) (location : Location) (e : Exception) :
  getGeojsonCoordinates axios_get c location = Throw e ->
  e = Error FAILED_OPENSTREETMAP_REQUEST
  \/ e = Error UNKNOWN_GEOJSON_TYPE
  \/ e = TypeError.
Proof.
  unfold getGeojsonCoordinates. rewrite doOpenStreetMapRequest_url.
  destruct (axios_get _) as [[responses | data] | e'].
  - assert (Hany : forall response : option OpenStreetMapResponse,
              match response with
              | None => Return []
              | Some response =>
                  match geojson response with
                  | None => Return []
                  | Some g => condenseCoordinates c g
                  end
              end = Throw e ->
              e = Error FAILED_OPENSTREETMAP_REQUEST
              \/ e = Error UNKNOWN_GEOJSON_TYPE
              \/ e = TypeError).
    { intros [[[g |]] |] Hthrow; try discriminate Hthrow.
      destruct (condenseCoordinates_throws _ _ Hthrow) as [[-> _] | [-> _]];
        auto. }
    destruct (isPostalCode location); cbn [bind]; apply Hany.
  - cbn [bind]. intros Hthrow. injection Hthrow as <-. now left.
  - cbn [bind]. intros Hthrow. injection Hthrow as <-. now left.
Qed.

Lemma buildMapUrl_throws (numberToString : number -> jsstring)
  (location : Location) (coordinates : list (list Coordinate))
  (key : jsstring) (e : Exception) :
  buildMapUrl numberToString location coordinates key = Throw e ->
  e = Error NO_COORDINATES_FOUND /\ coordinates = [].
Proof.
  unfold buildMapUrl, buildLocationShape.
  destruct coordinates as [| ring rings]; cbn [length Nat.eqb bind];
    intros Hthrow; [| discriminate Hthrow].
  injection Hthrow as <-. now split.
Qed.

(** X16.  [generateMapUrl] throws NO_API_KEY exactly when the key is absent,
    whatever the location and the geocoding service are; it throws
    NO_LOCATION exactly when the key is present and the location, its name or
    its category is absent; every other exception it throws is
    FAILED_OPENSTREETMAP_REQUEST, UNKNOWN_GEOJSON_TYPE, NO_COORDINATES_FOUND
    or a TypeError. *)
Theorem generateMapUrl_exceptions (numberToString : number -> jsstring)
  (axios_get : jsstring -> Result AxiosValue)
  (c : Constants) (location : option LocationArgument)
  (apiKey : option jsstring) :
  (generateMapUrl numberToString axios_get c location apiKey
   = Throw (Error NO_API_KEY) <-> apiKey = None)
  /\ (generateMapUrl numberToString axios_get c location apiKey
      = Throw (Error NO_LOCATION)
      <-> apiKey <> None /\ isCompleteLocation location = false)
  /\ (forall e,
        generateMapUrl numberToString axios_get c location apiKey = Throw e ->
        e = Error NO_API_KEY \/ e = Error NO_LOCATION
        \/ e = Error FAILED_OPENSTREETMAP_REQUEST
        \/ e = Error UNKNOWN_GEOJSON_TYPE
        \/ e = Error NO_COORDINATES_FOUND
        \/ e = TypeError).
Proof.
  assert (Hdown : forall name target key e,
            generateMapUrl numberToString axios_get c
              (Some {| argument_canonical_name := Some name;
                       argument_target_type := Some target |}) (Some key)
            = Throw e ->
            e = Error FAILED_OPENSTREETMAP_REQUEST
            \/ e = Error UNKNOWN_GEOJSON_TYPE
            \/ e = Error NO_COORDINATES_FOUND
            \/ e = TypeError).
  { intros name target key e. cbn [generateMapUrl].
    destruct (getGeojsonCoordinates axios_get c
                {| canonical_name := name; target_type := Some target |})
      as [coordinates | e'] eqn:Hrings; cbn [bind]; intros Hthrow.
    - apply buildMapUrl_throws in Hthrow. destruct Hthrow as [-> _]. auto.
    - injection Hthrow as <-.
      destruct (getGeojsonCoordinates_throws _ _ _ Hrings)
        as [-> | [-> | ->]]; auto. }
  destruct apiKey as [key |].
  - destruct location as [[[name |] [target |]] |].
    + split; [| split].
      * split; [| discriminate]. intros Hthrow.
        destruct (Hdown _ _ _ _ Hthrow) as [H | [H | [H | H]]];
          discriminate H.
      * split.
        -- intros Hthrow.
           destruct (Hdown _ _ _ _ Hthrow) as [H | [H | [H | H]]];
             discriminate H.
        -- intros [_ Hincomplete]. discriminate Hincomplete.
      * intros e Hthrow.
        destruct (Hdown _ _ _ _ Hthrow) as [-> | [-> | [-> | ->]]]; auto 10.
    + cbn [generateMapUrl isCompleteLocation].
      split; [split; discriminate | split].
      * split; [split; [discriminate | reflexivity] | reflexivity].
      * intros e Hthrow. injection Hthrow as <-. auto.
    + cbn [generateMapUrl isCompleteLocation].
      split; [split; discriminate | split].
      * split; [split; [discriminate | reflexivity] | reflexivity].
      * intros e Hthrow. injection Hthrow as <-. auto.
    + cbn [generateMapUrl isCompleteLocation].
      split; [split; discriminate | split].
      * split; [split; [discriminate | reflexivity] | reflexivity].
      * intros e Hthrow. injection Hthrow as <-. auto.
    + cbn [generateMapUrl isCompleteLocation].
      split; [split; discriminate | split].
      * split; [split; [discriminate | reflexivity] | reflexivity].
      * intros e Hthrow. injection Hthrow as <-. auto.
  - cbn [generateMapUrl]. split; [split; reflexivity | split].
    + split; [discriminate | intros [Hkey _]; now contradiction Hkey].
    + intros e Hthrow. injection Hthrow as <-. auto.
Qed.

Lemma generateMapUrl_exceptions_witness :
  generateMapUrl digitToString noCandidate constants None None
  = Throw (Error NO_API_KEY)
  /\ generateMapUrl digitToString noCandidate constants
       (Some {| argument_canonical_name := Some (lit "Shropshire");
                argument_target_type := None |})
       (Some (lit "key"))
     = Throw (Error NO_LOCATION).
Proof.
  split.
  - apply (proj1 (generateMapUrl_exceptions digitToString noCandidate
                    constants None None)).
    reflexivity.
  - apply (proj1 (proj2 (generateMapUrl_exceptions digitToString noCandidate
                           constants
                           (Some {| argument_canonical_name :=
                                      Some (lit "Shropshire");
                                    argument_target_type := None |})
                           (Some (lit "key"))))).
    split; [discriminate | reflexivity].
Defined.

(** X17.  When the request to the geocoding service fails, whatever the
    failure is, [generateMapUrl] throws FAILED_OPENSTREETMAP_REQUEST; the
    address asked is the search address of the encoded canonical name. *)
Theorem failed_request_is_surfaced (numberToString : number -> jsstring)
  (axios_get : jsstring -> Result AxiosValue)
  (c : Constants) (name : jsstring) (target : GoogleLocationTargetType)
  (key : jsstring) (failure : Exception) :
  axios_get (searchUrl name) = Throw failure ->
  doOpenStreetMapRequest axios_get
    {| canonical_name := name; target_type := Some target |}
  = Throw (Error FAILED_OPENSTREETMAP_REQUEST)
  /\ generateMapUrl numberToString axios_get c
       (Some {| argument_canonical_name := Some name;
                argument_target_type := Some target |})
       (Some key)
     = Throw (Error FAILED_OPENSTREETMAP_REQUEST).
Proof.
  intros Hfailure.
  assert (Hrequest : doOpenStreetMapRequest axios_get
            {| canonical_name := name; target_type := Some target |}
          = Throw (Error FAILED_OPENSTREETMAP_REQUEST)).
  { rewrite doOpenStreetMapRequest_url. cbn [canonical_name].
    now rewrite Hfailure. }
  split; trivial.
  cbn [generateMapUrl]. unfold getGeojsonCoordinates. now rewrite Hrequest.
Qed.

Lemma failed_request_is_surfaced_witness :
  doOpenStreetMapRequest (fun _ => Throw TypeError) shropshire
  = Throw (Error FAILED_OPENSTREETMAP_REQUEST)
  /\ generateMapUrl digitToString (fun _ => Throw TypeError) constants
       (Some shropshireArgument) (Some (lit "key"))
     = Throw (Error FAILED_OPENSTREETMAP_REQUEST).
Proof.
  apply (@failed_request_is_surfaced digitToString (fun _ => Throw TypeError)
           constants (lit "Shropshire") County (lit "key") TypeError).
  reflexivity.
Defined.

(** What the code does on a response object: the [try] block throws and the
    [catch] reports a failed request. *)
Lemma response_object_fails (numberToString : number -> jsstring)
  (axios_get : jsstring -> Result AxiosValue)
  (c : Constants) (name : jsstring) (target : option GoogleLocationTargetType)
  (data : list OpenStreetMapResponse) :
  axios_get (searchUrl name) = Return (ResponseObject data) ->
  doOpenStreetMapRequest axios_get
    {| canonical_name := name; target_type := target |}
  = Throw (Error FAILED_OPENSTREETMAP_REQUEST)
  /\ getGeojsonCoordinates axios_get c
       {| canonical_name := name; target_type := target |}
     = Throw (Error FAILED_OPENSTREETMAP_REQUEST)
  /\ forall key category,
       target = Some category ->
       generateMapUrl numberToString axios_get c
         (Some {| argument_canonical_name := Some name;
                  argument_target_type := Some category |})
         (Some key)
       = Throw (Error FAILED_OPENSTREETMAP_REQUEST).
Proof.
  intros Hobject.
  assert (Hrequest : doOpenStreetMapRequest axios_get
            {| canonical_name := name; target_type := target |}
          = Throw (Error FAILED_OPENSTREETMAP_REQUEST)).
  { rewrite doOpenStreetMapRequest_url. cbn [canonical_name].
    now rewrite Hobject. }
  assert (Hrings : getGeojsonCoordinates axios_get c
            {| canonical_name := name; target_type := target |}
          = Throw (Error FAILED_OPENSTREETMAP_REQUEST)).
  { unfold getGeojsonCoordinates. now rewrite Hrequest. }
  split; [exact Hrequest | split; [exact Hrings |]].
  intros key category ->. cbn [generateMapUrl]. now rewrite Hrings.
Qed.

(** X18.  What [generateMapUrl] does for a first candidate with a Point
    geometry depends on what the awaited [axios.get] is.  When it is the
    array of candidates, the result is the map address with a center marker
    on the encoded canonical name and no path, whatever the category of the
    location is.  When it is a response object, as axios resolves to, the
    candidates of its body are not read and FAILED_OPENSTREETMAP_REQUEST is
    thrown. *)
Theorem point_gives_center_marker (numberToString : number -> jsstring)
  (axios_get : jsstring -> Result AxiosValue)
  (c : Constants) (name : jsstring) (target : GoogleLocationTargetType)
  (key : jsstring) (point : list number)
  (others : list OpenStreetMapResponse) :
  (axios_get (searchUrl name)
   = Return (CandidateArray ({| geojson := Some (POINT point) |} :: others)) ->
   generateMapUrl numberToString axios_get c
     (Some {| argument_canonical_name := Some name;
              argument_target_type := Some target |})
     (Some key)
   = Return (centerMarkerUrl name key))
  /\ (axios_get (searchUrl name)
      = Return (ResponseObject
                  ({| geojson := Some (POINT point) |} :: others)) ->
      generateMapUrl numberToString axios_get c
        (Some {| argument_canonical_name := Some name;
                 argument_target_type := Some target |})
        (Some key)
      = Throw (Error FAILED_OPENSTREETMAP_REQUEST)).
Proof.
  split.
  - intros Hresponse. cbn [generateMapUrl]. unfold getGeojsonCoordinates.
    rewrite doOpenStreetMapRequest_url. cbn [canonical_name].
    rewrite Hresponse.
    destruct (isPostalCode _); cbn [filter hasPointGeojson geojson is_point
      hd_error bind]; apply buildMapUrl_center.
  - intros Hobject.
    now apply (@response_object_fails numberToString axios_get c name
                 (Some target) _ Hobject).
Qed.

Lemma point_gives_center_marker_witness :
  generateMapUrl digitToString
    (fun _ =>
       Return (CandidateArray [ {| geojson := Some (POINT [1; 2]%float) |} ]))
    constants (Some shropshireArgument) (Some (lit "key"))
  = Return (centerMarkerUrl (lit "Shropshire") (lit "key"))
  /\ generateMapUrl digitToString
       (fun _ =>
          Return (ResponseObject
                    [ {| geojson := Some (POINT [1; 2]%float) |} ]))
       constants (Some shropshireArgument) (Some (lit "key"))
     = Throw (Error FAILED_OPENSTREETMAP_REQUEST).
Proof.
  split.
  - apply (proj1 (point_gives_center_marker digitToString
                    (fun _ =>
                       Return (CandidateArray
                                 [ {| geojson :=
                                        Some (POINT [1; 2]%float) |} ]))
                    constants (lit "Shropshire") County (lit "key")
                    [1; 2]%float [])).
    reflexivity.
  - apply (proj2 (point_gives_center_marker digitToString
                    (fun _ =>
                       Return (ResponseObject
                                 [ {| geojson :=
                                        Some (POINT [1; 2]%float) |} ]))
                    constants (lit "Shropshire") County (lit "key")
                    [1; 2]%float [])).
    reflexivity.
Defined.

(** X19.  For a location of category Postal Code no outline is ever drawn.
    When the awaited [axios.get] is the array of candidates,
    [generateMapUrl] returns the center-marker address if some candidate has
    a Point geometry, the other candidates being skipped, and throws
    NO_COORDINATES_FOUND if none has.  When it is a response object, as axios
    resolves to, calling [filter] on it throws inside the [try] block and
    FAILED_OPENSTREETMAP_REQUEST is thrown. *)
Theorem postal_code_has_no_outline (numberToString : number -> jsstring)
  (axios_get : jsstring -> Result AxiosValue)
  (c : Constants) (name key : jsstring)
  (responses : list OpenStreetMapResponse) :
  (axios_get (searchUrl name) = Return (CandidateArray responses) ->
   generateMapUrl numberToString axios_get c
     (Some {| argument_canonical_name := Some name;
              argument_target_type := Some PostalCode |})
     (Some key)
   = if existsb hasPointGeojson responses
     then Return (centerMarkerUrl name key)
     else Throw (Error NO_COORDINATES_FOUND))
  /\ (axios_get (searchUrl name) = Return (ResponseObject responses) ->
      generateMapUrl numberToString axios_get c
        (Some {| argument_canonical_name := Some name;
                 argument_target_type := Some PostalCode |})
        (Some key)
      = Throw (Error FAILED_OPENSTREETMAP_REQUEST)).
Proof.
  split.
  - intros Hresponses. cbn [generateMapUrl]. unfold getGeojsonCoordinates.
    rewrite doOpenStreetMapRequest_url.
    cbn [canonical_name isPostalCode target_type is_postal_code].
    rewrite Hresponses. cbn [bind].
    destruct (hd_error (filter hasPointGeojson responses))
      as [response |] eqn:Hfirst.
    + apply first_match_some in Hfirst. destruct Hfirst as [Hpoint ->].
      unfold hasPointGeojson in Hpoint.
      destruct (geojson response) as [[point | | | |] |];
        try discriminate Hpoint.
      apply buildMapUrl_center.
    + apply first_match_none in Hfirst. rewrite Hfirst. reflexivity.
  - intros Hobject.
    now apply (@response_object_fails numberToString axios_get c name
                 (Some PostalCode) _ Hobject).
Qed.

Lemma postal_code_has_no_outline_witness :
  generateMapUrl digitToString
    (fun _ =>
       Return
         (CandidateArray
            [ {| geojson := Some (POLYGON [[ (0, 0); (3, 4) ]]%float) |};
              {| geojson := Some (POINT [1; 2]%float) |} ]))
    constants
    (Some {| argument_canonical_name := Some (lit "SY7, Shropshire");
             argument_target_type := Some PostalCode |})
    (Some (lit "key"))
  = Return (centerMarkerUrl (lit "SY7, Shropshire") (lit "key"))
  /\ generateMapUrl digitToString
       (fun _ =>
          Return
            (ResponseObject
               [ {| geojson := Some (POLYGON [[ (0, 0); (3, 4) ]]%float) |};
                 {| geojson := Some (POINT [1; 2]%float) |} ]))
       constants
       (Some {| argument_canonical_name := Some (lit "SY7, Shropshire");
                argument_target_type := Some PostalCode |})
       (Some (lit "key"))
     = Throw (Error FAILED_OPENSTREETMAP_REQUEST).
Proof.
  split.
  - apply (proj1 (postal_code_has_no_outline digitToString
                    (fun _ =>
                       Return
                         (CandidateArray
                            [ {| geojson :=
                                   Some (POLYGON [[ (0, 0); (3, 4) ]]%float) |};
                              {| geojson := Some (POINT [1; 2]%float) |} ]))
                    constants (lit "SY7, Shropshire") (lit "key")
                    [ {| geojson :=
                           Some (POLYGON [[ (0, 0); (3, 4) ]]%float) |};
                      {| geojson := Some (POINT [1; 2]%float) |} ])).
    reflexivity.
  - apply (proj2 (postal_code_has_no_outline digitToString
                    (fun _ =>
                       Return
                         (ResponseObject
                            [ {| geojson :=
                                   Some (POLYGON [[ (0, 0); (3, 4) ]]%float) |};
                              {| geojson := Some (POINT [1; 2]%float) |} ]))
                    constants (lit "SY7, Shropshire") (lit "key")
                    [ {| geojson :=
                           Some (POLYGON [[ (0, 0); (3, 4) ]]%float) |};
                      {| geojson := Some (POINT [1; 2]%float) |} ])).
    reflexivity.
Defined.

(** X20.  A Polygon or LineString whose first ring has one or two points
    gives no path: its condensation is one ring of at most two points, for
    which [buildLocationShape] returns the styling parameters and the center
    marker. *)
Theorem short_ring_gives_center_marker (numberToString : number -> jsstring)
  (c : Constants) (location : Location) (first : Position)
  (rest : list Position) (others : list Ring) :
  length rest <= 1 ->
  exists condensed,
    condenseCoordinates c (POLYGON ((first :: rest) :: others))
    = Return [condensed]
    /\ condenseCoordinates c (LINESTRING ((first :: rest) :: others))
       = Return [condensed]
    /\ buildLocationShape numberToString location [condensed]
       = Return (style ++ lit "&center="
                   ++ buildEncodedCanonicalName (canonical_name location)).
Proof.
  intros Hshort.
  destruct (condensePolygon_length c false 0 first rest)
    as [condensed [Hcondensed [_ Hlength]]].
  exists condensed.
  unfold condenseCoordinates, mapi. cbn [is_point rawCoordinatesOf bind
    nth_error is_multipolygon mapi_from].
  repeat match goal with
         | |- context [condensePolygon ?a ?b ?ring ?i] =>
             replace (condensePolygon a b ring i) with (Return condensed)
               by (symmetry; exact Hcondensed)
         end.
  cbn [bind]. split; [| split]; trivial.
  unfold buildLocationShape. cbn [length Nat.eqb fold_left].
  unfold appendShape.
  assert (Hcenter : (2 <? length condensed) = false).
  { apply Nat.ltb_ge. simpl in Hlength. lia. }
  now rewrite Hcenter.
Qed.

Lemma short_ring_gives_center_marker_witness :
  exists condensed,
    condenseCoordinates constants (POLYGON [[ (0, 0); (3, 4) ]]%float)
    = Return [condensed]
    /\ condenseCoordinates constants (LINESTRING [[ (0, 0); (3, 4) ]]%float)
       = Return [condensed]
    /\ buildLocationShape digitToString shropshire [condensed]
       = Return (style ++ lit "&center="
                   ++ buildEncodedCanonicalName (canonical_name shropshire)).
Proof.
  apply (@short_ring_gives_center_marker digitToString constants shropshire
           (0, 0)%float [ (3, 4)%float ] []).
  simpl. lia.
Defined.

(** *** Whitespace in the map address *)

Lemma NoWhitespace_check (s : jsstring) :
  forallb (fun c => negb (is_whitespace c)) s = true -> NoWhitespace s.
Proof.
  intros Hcheck. apply Forall_forall. intros c Hc.
  rewrite forallb_forall in Hcheck. apply negb_true_iff. now apply Hcheck.
Qed.

Lemma NoWhitespace_app (s t : jsstring) :
  NoWhitespace s -> NoWhitespace t -> NoWhitespace (s ++ t).
Proof.
  intros Hs Ht. apply Forall_app. now split.
Qed.

Lemma NoWhitespace_concat (parts : list jsstring) :
  Forall NoWhitespace parts -> NoWhitespace (concat parts).
Proof.
  induction 1 as [| part parts Hpart _ IH]; [constructor |].
  cbn [concat]. now apply NoWhitespace_app.
Qed.

Lemma pointText_NoWhitespace (numberToString : number -> jsstring)
  (coordinate : Coordinate) :
  (forall x, NoWhitespace (numberToString x)) ->
  NoWhitespace (pointText numberToString coordinate).
Proof.
  intros Hnumber. unfold pointText.
  repeat apply NoWhitespace_app; trivial;
    now apply NoWhitespace_check.
Qed.

Lemma shapeFragment_NoWhitespace (numberToString : number -> jsstring)
  (location : Location) (ring : list Coordinate) :
  (forall x, NoWhitespace (numberToString x)) ->
  NoWhitespace (shapeFragment numberToString location ring).
Proof.
  intros Hnumber. unfold shapeFragment, closedPathFragment, centerFragment.
  destruct (2 <? length ring).
  - repeat apply NoWhitespace_app.
    + now apply NoWhitespace_check.
    + apply NoWhitespace_concat. apply Forall_forall. intros text Htext.
      apply in_map_iff in Htext. destruct Htext as [coordinate [<- _]].
      now apply pointText_NoWhitespace.
    + destruct ring; [constructor | now apply pointText_NoWhitespace].
  - apply NoWhitespace_app; [now apply NoWhitespace_check |].
    unfold buildEncodedCanonicalName, replaceAll. apply spaces_all_replaced.
Qed.

(** X21.  For a list of rings that is not empty, [buildMapUrl] returns the
    address made of the endpoint, the size and scale, the styling parameters,
    one fragment per ring and the key; when numbers are printed without
    whitespace and the key has none, no whitespace occurs in the address,
    whatever the canonical name is. *)
Theorem map_url_has_no_whitespace (numberToString : number -> jsstring)
  (location : Location) (coordinates : list (list Coordinate))
  (key : jsstring) :
  (forall x, NoWhitespace (numberToString x)) ->
  NoWhitespace key ->
  coordinates <> [] ->
  exists url,
    buildMapUrl numberToString location coordinates key = Return url
    /\ url
       = lit "https://maps.googleapis.com/maps/api/staticmap"
           ++ lit "?size=600x400&scale=2"
           ++ (style
                 ++ concat (map (shapeFragment numberToString location)
                              coordinates))
           ++ lit "&key=" ++ key
    /\ NoWhitespace url.
Proof.
  intros Hnumber Hkey Hrings.
  unfold buildMapUrl, buildLocationShape.
  destruct coordinates as [| ring rings]; [contradiction |].
  cbn [length Nat.eqb bind]. rewrite fold_appendShape.
  eexists. split; [reflexivity |]. split; [reflexivity |].
  assert (Hfragments : NoWhitespace
            (concat (map (shapeFragment numberToString location)
                       (ring :: rings)))).
  { apply NoWhitespace_concat. apply Forall_forall. intros text Htext.
    apply in_map_iff in Htext. destruct Htext as [r [<- _]].
    now apply shapeFragment_NoWhitespace. }
  apply NoWhitespace_app; [now apply NoWhitespace_check |].
  apply NoWhitespace_app; [now apply NoWhitespace_check |].
  apply NoWhitespace_app.
  - apply NoWhitespace_app; [| exact Hfragments].
    apply NoWhitespace_check. vm_compute. reflexivity.
  - apply NoWhitespace_app; [now apply NoWhitespace_check | exact Hkey].
Qed.

Lemma map_url_has_no_whitespace_witness :
  exists url,
    buildMapUrl digitToString shropshire [fourPoints] (lit "key") = Return url
    /\ url
       = lit "https://maps.googleapis.com/maps/api/staticmap"
           ++ lit "?size=600x400&scale=2"
           ++ (style
                 ++ concat (map (shapeFragment digitToString shropshire)
                              [fourPoints]))
           ++ lit "&key=" ++ lit "key"
    /\ NoWhitespace url.
Proof.
  apply (@map_url_has_no_whitespace digitToString shropshire [fourPoints]
           (lit "key")).
  - intros x. unfold digitToString.
    repeat match goal with
           | |- context [if ?b then _ else _] => destruct b
           end; repeat constructor.
  - repeat constructor.
  - discriminate.
Defined.

(** X22.  For a location of another category than Postal Code, when the
    awaited [axios.get] is the array of candidates, only its first element
    counts: the rings are those of its geometry, and there is none when it
    has no geometry, whatever the later candidates are.  When the awaited
    value is a response object, as axios resolves to, destructuring it throws
    inside the [try] block: no candidate is selected and
    FAILED_OPENSTREETMAP_REQUEST is thrown. *)
Theorem first_candidate_only
  (axios_get : jsstring -> Result AxiosValue)
  (c : Constants) (name : jsstring) (target : GoogleLocationTargetType)
  (response : OpenStreetMapResponse) (others : list OpenStreetMapResponse) :
  is_postal_code target = false ->
  (axios_get (searchUrl name) = Return (CandidateArray (response :: others)) ->
   doOpenStreetMapRequest axios_get
     {| canonical_name := name; target_type := Some target |}
   = Return (Some response)
   /\ getGeojsonCoordinates axios_get c
        {| canonical_name := name; target_type := Some target |}
      = match geojson response with
        | Some geoJson => condenseCoordinates c geoJson
        | None => Return []
        end)
  /\ (axios_get (searchUrl name) = Return (ResponseObject (response :: others)) ->
      doOpenStreetMapRequest axios_get
        {| canonical_name := name; target_type := Some target |}
      = Throw (Error FAILED_OPENSTREETMAP_REQUEST)
      /\ getGeojsonCoordinates axios_get c
           {| canonical_name := name; target_type := Some target |}
         = Throw (Error FAILED_OPENSTREETMAP_REQUEST)).
Proof.
  intros Hcategory. split.
  - intros Hresponses.
    assert (Hrequest : doOpenStreetMapRequest axios_get
              {| canonical_name := name; target_type := Some target |}
            = Return (Some response)).
    { rewrite doOpenStreetMapRequest_url.
      cbn [canonical_name isPostalCode target_type].
      now rewrite Hresponses, Hcategory. }
    split; trivial.
    unfold getGeojsonCoordinates. now rewrite Hrequest.
  - intros Hobject.
    destruct (@response_object_fails digitToString axios_get c name
                (Some target) _ Hobject) as [Hrequest [Hrings _]].
    now split.
Qed.

Lemma first_candidate_only_witness :
  doOpenStreetMapRequest
    (fun _ =>
       Return (CandidateArray
                 [ {| geojson := None |};
                   {| geojson := Some (POINT [1; 2]%float) |} ]))
    shropshire
  = Return (Some {| geojson := None |})
  /\ getGeojsonCoordinates
       (fun _ =>
          Return (CandidateArray
                    [ {| geojson := None |};
                      {| geojson := Some (POINT [1; 2]%float) |} ]))
       constants shropshire
     = Return [].
Proof.
  apply (proj1 (@first_candidate_only
                  (fun _ =>
                     Return (CandidateArray
                               [ {| geojson := None |};
                                 {| geojson := Some (POINT [1; 2]%float) |} ]))
                  constants (lit "Shropshire") County {| geojson := None |}
                  [ {| geojson := Some (POINT [1; 2]%float) |} ]
                  eq_refl)).
  reflexivity.
Defined.

(** X23.  When the awaited [axios.get] is a response object, as axios
    resolves to, the candidates of its body are never read: for every
    location, of category Postal Code or not, [doOpenStreetMapRequest] and
    [getGeojsonCoordinates] throw FAILED_OPENSTREETMAP_REQUEST, and so does
    [generateMapUrl] for every key; no map address is returned. *)
Theorem response_object_is_a_failed_request
  (numberToString : number -> jsstring)
  (axios_get : jsstring -> Result AxiosValue)
  (c : Constants) (name : jsstring) (target : GoogleLocationTargetType)
  (key : jsstring) (data : list OpenStreetMapResponse) :
  axios_get (searchUrl name) = Return (ResponseObject data) ->
  doOpenStreetMapRequest axios_get
    {| canonical_name := name; target_type := Some target |}
  = Throw (Error FAILED_OPENSTREETMAP_REQUEST)
  /\ getGeojsonCoordinates axios_get c
       {| canonical_name := name; target_type := Some target |}
     = Throw (Error FAILED_OPENSTREETMAP_REQUEST)
  /\ generateMapUrl numberToString axios_get c
       (Some {| argument_canonical_name := Some name;
                argument_target_type := Some target |})
       (Some key)
     = Throw (Error FAILED_OPENSTREETMAP_REQUEST).
Proof.
  intros Hobject.
  destruct (@response_object_fails numberToString axios_get c name
              (Some target) _ Hobject) as [Hrequest [Hrings Hurl]].
  split; [exact Hrequest | split; [exact Hrings |]].
  now apply Hurl.
Qed.

Lemma response_object_is_a_failed_request_witness :
  doOpenStreetMapRequest
    (fun _ =>
       Return (ResponseObject
                 [ {| geojson := Some (POLYGON [[ (0, 0); (3, 4) ]]%float) |} ]))
    shropshire
  = Throw (Error FAILED_OPENSTREETMAP_REQUEST)
  /\ getGeojsonCoordinates
       (fun _ =>
          Return (ResponseObject
                    [ {| geojson :=
                           Some (POLYGON [[ (0, 0); (3, 4) ]]%float) |} ]))
       constants shropshire
     = Throw (Error FAILED_OPENSTREETMAP_REQUEST)
  /\ generateMapUrl digitToString
       (fun _ =>
          Return (ResponseObject
                    [ {| geojson :=
                           Some (POLYGON [[ (0, 0); (3, 4) ]]%float) |} ]))
       constants (Some shropshireArgument) (Some (lit "key"))
     = Throw (Error FAILED_OPENSTREETMAP_REQUEST).
Proof.
  apply (@response_object_is_a_failed_request digitToString
           (fun _ =>
              Return (ResponseObject
                        [ {| geojson :=
                               Some (POLYGON [[ (0, 0); (3, 4) ]]%float) |} ]))
           constants (lit "Shropshire") County (lit "key")
           [ {| geojson := Some (POLYGON [[ (0, 0); (3, 4) ]]%float) |} ]).
  reflexivity.
Defined.

(** ** buildEncodedCanonicalName on names in the regular format *)

(** X24.  For every canonical name in the regular format, words grouped in
    components with one whitespace code unit after the comma between two
    components and a run of whitespace between two words of a component, the
    encoded name is the components joined by [,], each with its words
    joined by [+]. *)
Theorem regular_name_encoded (name : Name) :
  wellFormedName name = true ->
  buildEncodedCanonicalName (nameText name) = encodedName name.
Proof.
  intros Hwf.
  destruct name as [component components].
  unfold wellFormedName in Hwf. cbn [fst snd] in Hwf.
  apply andb_true_iff in Hwf. destruct Hwf as [Hcomponent Hcomponents].
  unfold buildEncodedCanonicalName, replaceAll, nameText, encodedName.
  cbn [fst snd].
  rewrite commas_copy by now apply component_without_comma.
  rewrite separators_stripped by exact Hcomponents.
  rewrite component_encoded; trivial.
  - now rewrite components_encoded.
  - destruct components as [| next components]; simpl; trivial.
Qed.

Lemma regular_name_encoded_witness :
  wellFormedName
    ((lit "Nottingham", [ (lit " ", lit "Forest") ]),
     [ (32%N, (lit "Great", [ (lit " ", lit "Britain") ]));
       (32%N, (lit "United", [ (lit " ", lit "Kingdom") ])) ])
  = true
  /\ buildEncodedCanonicalName
       (nameText
          ((lit "Nottingham", [ (lit " ", lit "Forest") ]),
           [ (32%N, (lit "Great", [ (lit " ", lit "Britain") ]));
             (32%N, (lit "United", [ (lit " ", lit "Kingdom") ])) ]))
     = lit "Nottingham+Forest,Great+Britain,United+Kingdom".
Proof.
  split; [reflexivity |].
  apply (regular_name_encoded
           ((lit "Nottingham", [ (lit " ", lit "Forest") ]),
            [ (32%N, (lit "Great", [ (lit " ", lit "Britain") ]));
              (32%N, (lit "United", [ (lit " ", lit "Kingdom") ])) ])).
  reflexivity.
Defined.
